(** * The restaurant-name resolver of the Maps review extension

    A shallow embedding of [getRestaurantNameOnly] (chrome-extension/popup.js)
    together with the ECMAScript string built-ins it calls, and the
    properties of the three-stage fallback (selector probing, document
    title, address) that the specification states about it.

    JavaScript strings are sequences of UTF-16 code units; a code unit is a
    number of type [N].  The page is read through [document.querySelector],
    [document.title] and [window.location.href]; the only effect of the
    function is what it writes to the console, and the only exception it can
    meet is the [URIError] of [decodeURIComponent].

    The development then covers the other readers of the page
    ([isGoogleMapsPage], [getRestaurantDataFromPage] and
    [getBasicRestaurantName] of popup.js, [extractRestaurantData] of
    content.js) and the handlers of the service worker (background.js):
    installation, the settings messages and the tab badge. *)

From Stdlib Require Import List NArith Bool String Ascii Arith Lia DecimalString.
Import ListNotations.

Local Open Scope N_scope.
Local Open Scope list_scope.

(** ** ECMAScript strings and the built-ins used by popup.js *)

Module JS.

Definition code_unit := N.
Definition jsstring := list code_unit.

(** A string literal of the source (ASCII only). *)
Definition js (s : string) : jsstring :=
  map N_of_ascii (list_ascii_of_string s).

(** The double-quote character, for literals that contain it. *)
Definition dquote : jsstring := [0x22].
Definition quoted (s : jsstring) : jsstring := dquote ++ s ++ dquote.

(** Number-to-string conversion of a template literal, for an index. *)
Definition number_to_string (n : nat) : jsstring :=
  js (NilZero.string_of_uint (Nat.to_uint n)).

(** ToBoolean on a string: the empty string is the only falsy one. *)
Definition truthy (s : jsstring) : bool :=
  match s with [] => false | _ :: _ => true end.

(** WhiteSpace and LineTerminator code points (ECMA-262, 12.2 and 12.3):
    TAB, VT, FF, ZWNBSP, the Unicode space separators, LF, CR, LS, PS. *)
Definition is_white_space (c : code_unit) : bool :=
  (c =? 0x09) || (c =? 0x0B) || (c =? 0x0C) || (c =? 0xFEFF)
  || (c =? 0x20) || (c =? 0xA0) || (c =? 0x1680)
  || ((0x2000 <=? c) && (c <=? 0x200A))
  || (c =? 0x202F) || (c =? 0x205F) || (c =? 0x3000).

Definition is_line_terminator (c : code_unit) : bool :=
  (c =? 0x0A) || (c =? 0x0D) || (c =? 0x2028) || (c =? 0x2029).

Definition is_trimmable (c : code_unit) : bool :=
  is_white_space c || is_line_terminator c.

(** String.prototype.trimStart, trimEnd and trim. *)
Fixpoint trimStart (s : jsstring) : jsstring :=
  match s with
  | [] => []
  | c :: s' => if is_trimmable c then trimStart s' else s
  end.

Definition trimEnd (s : jsstring) : jsstring := rev (trimStart (rev s)).

Definition trim (s : jsstring) : jsstring := trimEnd (trimStart s).

(** [starts_with pat s]: [pat] occurs in [s] at index 0. *)
Fixpoint starts_with (pat s : jsstring) : bool :=
  match pat, s with
  | [], _ => true
  | _ :: _, [] => false
  | p :: pat', c :: s' => (p =? c) && starts_with pat' s'
  end.

(** String.prototype.includes: [pat] occurs in [s] at some index. *)
Fixpoint includes (s pat : jsstring) : bool :=
  starts_with pat s ||
  match s with
  | [] => false
  | _ :: s' => includes s' pat
  end.

(** String.prototype.split with a non-empty separator string.  [acc] holds
    the current piece in reverse; [skip] counts the code units of a
    separator occurrence that are still to be passed over. *)
Fixpoint split_from (sep acc s : jsstring) (skip : nat) : list jsstring :=
  match s with
  | [] => [rev acc]
  | c :: s' =>
      match skip with
      | S k => split_from sep acc s' k
      | O =>
          if starts_with sep s
          then rev acc :: split_from sep [] s' (List.length sep - 1)
          else split_from sep (c :: acc) s' 0
      end
  end.

Definition split (s sep : jsstring) : list jsstring := split_from sep [] s 0.

(** String.prototype.replace(/\+/g, ' '). *)
Definition replace_plus_with_space (s : jsstring) : jsstring :=
  map (fun c => if c =? 0x2B then 0x20 else c) s.

(** The regular expression /\/place\/([^\/]+)/ tried at index 0 of [s]:
    the literal "/place/" and then the longest non-empty run of code units
    other than '/'.  The result is the pair (whole match, capture 1). *)
Fixpoint take_non_slash (s : jsstring) : jsstring :=
  match s with
  | [] => []
  | c :: s' => if c =? 0x2F then [] else c :: take_non_slash s'
  end.

Definition place_regexp_at (s : jsstring) : option (jsstring * jsstring) :=
  if starts_with (js "/place/") s then
    match take_non_slash (skipn 7 s) with
    | [] => None
    | seg => Some (js "/place/" ++ seg, seg)
    end
  else None.

(** String.prototype.match with that (non-global) regular expression: the
    leftmost index at which it matches, or null. *)
Fixpoint match_place (s : jsstring) : option (jsstring * jsstring) :=
  match place_regexp_at s with
  | Some m => Some m
  | None =>
      match s with
      | [] => None
      | _ :: s' => match_place s'
      end
  end.

(** *** decodeURIComponent (ECMA-262, Decode with an empty preserve set) *)

Definition hex_digit (c : code_unit) : option N :=
  if (0x30 <=? c) && (c <=? 0x39) then Some (c - 0x30)
  else if (0x41 <=? c) && (c <=? 0x46) then Some (c - 0x41 + 10)
  else if (0x61 <=? c) && (c <=? 0x66) then Some (c - 0x61 + 10)
  else None.

Definition ParseHexOctet (h l : code_unit) : option N :=
  match hex_digit h, hex_digit l with
  | Some a, Some b => Some (16 * a + b)
  | _, _ => None
  end.

(** The number of leading 1 bits of an octet. *)
Definition leading_ones (B : N) : nat :=
  if B <? 0x80 then 0%nat
  else if B <? 0xC0 then 1%nat
  else if B <? 0xE0 then 2%nat
  else if B <? 0xF0 then 3%nat
  else if B <? 0xF8 then 4%nat
  else 5%nat.

Definition is_continuation (b : N) : bool := (0x80 <=? b) && (b <=? 0xBF).

(** The code point of a well-formed UTF-8 sequence of two to four octets
    (no overlong form, no surrogate, at most U+10FFFF). *)
Definition utf8_code_point (Octets : list N) : option N :=
  match Octets with
  | [b0; b1] =>
      let V := (b0 mod 0x20) * 0x40 + b1 mod 0x40 in
      if is_continuation b1 && (0x80 <=? V) then Some V else None
  | [b0; b1; b2] =>
      let V := (b0 mod 0x10) * 0x1000 + (b1 mod 0x40) * 0x40 + b2 mod 0x40 in
      if is_continuation b1 && is_continuation b2 && (0x800 <=? V)
         && negb ((0xD800 <=? V) && (V <=? 0xDFFF))
      then Some V else None
  | [b0; b1; b2; b3] =>
      let V := (b0 mod 0x08) * 0x40000 + (b1 mod 0x40) * 0x1000
               + (b2 mod 0x40) * 0x40 + b3 mod 0x40 in
      if is_continuation b1 && is_continuation b2 && is_continuation b3
         && (0x10000 <=? V) && (V <=? 0x10FFFF)
      then Some V else None
  | _ => None
  end.

Definition UTF16EncodeCodePoint (V : N) : jsstring :=
  if V <=? 0xFFFF then [V]
  else [(V - 0x10000) / 0x400 + 0xD800; (V - 0x10000) mod 0x400 + 0xDC00].

(** One escape "%XY" at the head of [s]: its octet and the rest of [s].
    [None] when fewer than three code units are left, when the first is not
    '%', or when the two after it are not hexadecimal digits. *)
Definition read_escape (s : jsstring) : option (N * jsstring) :=
  match s with
  | p :: h :: l :: rest =>
      if p =? 0x25 then
        match ParseHexOctet h l with
        | Some B => Some (B, rest)
        | None => None
        end
      else None
  | _ => None
  end.

(** The [j] continuation escapes that follow a leading octet. *)
Fixpoint read_continuations (j : nat) (s : jsstring) : option (list N * jsstring) :=
  match j with
  | O => Some ([], s)
  | S j' =>
      match read_escape s with
      | Some (b, rest) =>
          match read_continuations j' rest with
          | Some (bs, rest') => Some (b :: bs, rest')
          | None => None
          end
      | None => None
      end
  end.

(** One iteration of the loop of Decode at a non-empty position: the code
    units it appends to the result and the input that is left.  [None] is
    the URIError exception. *)
Definition decode_step (C : code_unit) (s : jsstring) : option (jsstring * jsstring) :=
  if C =? 0x25 then
    match read_escape (C :: s) with
    | None => None
    | Some (B, rest) =>
        let n := leading_ones B in
        match n with
        | O => Some ([B], rest)
        | 1%nat => None
        | 2%nat | 3%nat | 4%nat =>
            match read_continuations (n - 1) rest with
            | None => None
            | Some (conts, rest') =>
                match utf8_code_point (B :: conts) with
                | None => None
                | Some V => Some (UTF16EncodeCodePoint V, rest')
                end
            end
        | _ => None
        end
    end
  else Some ([C], s).

(** Decode, with the length of the input as the bound on its iterations:
    every iteration consumes at least one code unit. *)
Fixpoint Decode (bound : nat) (s : jsstring) : option jsstring :=
  match s with
  | [] => Some []
  | C :: s' =>
      match bound with
      | O => None
      | S bound' =>
          match decode_step C s' with
          | None => None
          | Some (piece, rest) =>
              match Decode bound' rest with
              | None => None
              | Some R => Some (piece ++ R)
              end
          end
      end
  end.

Definition decodeURIComponent (s : jsstring) : option jsstring :=
  Decode (List.length s) s.

End JS.

Import JS.

(** ** The page, the console and the completion of a statement *)

(** What popup.js reads of the page: [document.querySelector(selector)]
    gives the first matching element or null, and the function reads only
    the [textContent] of that element. *)
Record Element := { textContent : jsstring }.

Record Document := {
  querySelector : jsstring -> option Element;
  title : jsstring
}.

Record Location := { href : jsstring }.

Record Window := { document : Document; location : Location }.

(** The values kept by [chrome.storage.local] (background.js stores a
    review count and a server address). *)
Inductive StoredValue :=
| StoredNumber (n : N)
| StoredString (s : jsstring).

(** The state a run can observe or change: the page, the extension's
    persisted settings, and the calls made to [console.log], oldest first,
    each with its list of arguments. *)
Record World := {
  window : Window;
  chrome_storage_local : list (jsstring * StoredValue);
  console : list (list jsstring)
}.

Inductive JSValue :=
| JSUndefined
| JSNull
| JSString (s : jsstring).

Inductive Error := URIError.

(** The completion of a statement: it falls through to the next statement,
    it returns from the enclosing function, or it throws. *)
Inductive Completion (A : Type) :=
| Normal (a : A)
| Return (v : JSValue)
| Throw (e : Error).

Arguments Normal {A} a.
Arguments Return {A} v.
Arguments Throw {A} e.

Definition M (A : Type) := World -> Completion A * World.

Definition ret {A} (a : A) : M A := fun w => (Normal a, w).

Definition bind {A B} (m : M A) (f : A -> M B) : M B :=
  fun w =>
    match m w with
    | (Normal a, w') => f a w'
    | (Return v, w') => (Return v, w')
    | (Throw e, w') => (Throw e, w')
    end.

Notation "x <- m ;; k" := (bind m (fun x => k))
  (at level 61, m at next level, right associativity).
Notation "m ;; k" := (bind m (fun _ => k))
  (at level 61, right associativity).

Definition return_ {A} (v : JSValue) : M A := fun w => (Return v, w).

Definition throw {A} (e : Error) : M A := fun w => (Throw e, w).

(** The world after the console has received the calls [l]. *)
Definition log_append (w : World) (l : list (list jsstring)) : World :=
  {| window := window w;
     chrome_storage_local := chrome_storage_local w;
     console := console w ++ l |}.

Definition console_log (args : list jsstring) : M unit :=
  fun w => (Normal tt, log_append w [args]).

Definition document_querySelector (selector : jsstring) : M (option Element) :=
  fun w => (Normal (querySelector (document (window w)) selector), w).

Definition document_title : M jsstring :=
  fun w => (Normal (title (document (window w))), w).

Definition window_location_href : M jsstring :=
  fun w => (Normal (href (location (window w))), w).

(** A built-in that throws [URIError] when it has no result. *)
Definition lift_URIError {A} (r : option A) : M A :=
  match r with
  | Some a => ret a
  | None => throw URIError
  end.

(** The outcome of a call: the value returned (undefined when the body
    ends without a return statement) or the exception thrown. *)
Inductive Outcome :=
| Returned (v : JSValue)
| Thrown (e : Error).

Definition call (body : M unit) (w : World) : Outcome * World :=
  match body w with
  | (Normal _, w') => (Returned JSUndefined, w')
  | (Return v, w') => (Returned v, w')
  | (Throw e, w') => (Thrown e, w')
  end.

(** ** popup.js: getRestaurantNameOnly *)

Definition nameSelectors : list jsstring :=
  [ js "h1[data-attrid=" ++ quoted (js "title") ++ js "]";
    js "h1.x3AX1-LfntMc-header-title-title";
    js "[data-value=" ++ quoted (js "title") ++ js "]";
    js "[data-value=" ++ quoted (js "title") ++ js "] span";
    js ".DUwDvf.lfPIob";
    js ".x3AX1-LfntMc-header-title-title span";
    js ".fontHeadlineSmall";
    js "h1";
    js "[aria-level=" ++ quoted (js "1") ++ js "]";
    js ".section-hero-header-title";
    js ".section-hero-header-title span";
    js "[role=" ++ quoted (js "main") ++ js "] h1";
    js "[role=" ++ quoted (js "main") ++ js "] [aria-level=" ++ quoted (js "1") ++ js "]" ].

(** The condition that guards the return inside the selector loop
    ("Filter out common non-restaurant text"). *)
Definition passes_filter (name : jsstring) : bool :=
  truthy name
  && negb (includes name (js "Google Maps"))
  && negb (includes name (js "Directions"))
  && negb (includes name (js "Reviews"))
  && (2 <? List.length name)%nat
  && (List.length name <? 100)%nat.

(** The for loop over [nameSelectors], from index [i] on; [rest] is the part
    of the array that is still to be tried. *)
Fixpoint selector_loop (i : nat) (rest : list jsstring) : M unit :=
  match rest with
  | [] => ret tt
  | selector :: rest' =>
      console_log [js "Trying selector " ++ number_to_string (i + 1) ++ js "/"
                   ++ number_to_string (List.length nameSelectors) ++ js ": "
                   ++ selector] ;;
      element <- document_querySelector selector ;;
      match element with
      | Some el =>
          let name := trim (textContent el) in
          console_log [js "Found element with text: " ++ quoted name] ;;
          (if passes_filter name
           then console_log [js "Returning restaurant name: " ++ quoted name] ;;
                return_ (JSString name)
           else ret tt)
      | None =>
          console_log [js "No element found for selector: " ++ selector]
      end ;;
      selector_loop (S i) rest'
  end.

(** "Try page title as fallback". *)
Definition title_fallback : M unit :=
  console_log [js "Trying page title fallback..."] ;;
  t <- document_title ;;
  if truthy t && negb (includes t (js "Google Maps"))
  then
    let titleParts := split t (js " - ") in
    match nth_error titleParts 0 with
    | Some part =>
        if truthy part && (2 <? List.length (trim part))%nat
        then
          let titleName := trim part in
          console_log [js "Found name from title: " ++ quoted titleName] ;;
          return_ (JSString titleName)
        else ret tt
    | None => ret tt
    end
  else ret tt.

(** "Try URL extraction as last resort", and the final [return null]. *)
Definition url_fallback : M unit :=
  console_log [js "Trying URL extraction..."] ;;
  url <- window_location_href ;;
  let placeMatch := match_place url in
  match placeMatch with
  | Some (_, capture1) =>
      decoded <- lift_URIError (decodeURIComponent capture1) ;;
      let urlName := replace_plus_with_space decoded in
      console_log [js "Found name from URL: " ++ quoted urlName] ;;
      return_ (JSString urlName)
  | None => ret tt
  end ;;
  console_log [js "No restaurant name found"] ;;
  return_ JSNull.

Definition getRestaurantNameOnly_body : M unit :=
  console_log [js "Attempting to extract restaurant name..."] ;;
  url <- window_location_href ;;
  console_log [js "Current URL:"; url] ;;
  t <- document_title ;;
  console_log [js "Page title:"; t] ;;
  selector_loop 0 nameSelectors ;;
  title_fallback ;;
  url_fallback.

Definition getRestaurantNameOnly (w : World) : Outcome * World :=
  call getRestaurantNameOnly_body w.

(** The value a run produces and the console lines it adds. *)
Definition resolve (w : World) : Outcome := fst (getRestaurantNameOnly w).

Definition logged (w : World) : list (list jsstring) :=
  skipn (List.length (console w)) (console (snd (getRestaurantNameOnly w))).

(** ** Vocabulary of the properties *)

(** The outcome of a call whose body completed with [c]. *)
Definition outcome_of (c : Completion unit) : Outcome :=
  match c with
  | Normal _ => Returned JSUndefined
  | Return v => Returned v
  | Throw e => Thrown e
  end.

(** On every world whose page is [win], the statement [m] completes with
    [c], adds the calls [l] to the console and changes nothing else. *)
Definition runs_as {A} (m : M A) (win : Window) (c : Completion A)
    (l : list (list jsstring)) : Prop :=
  forall w, window w = win -> m w = (c, log_append w l).

(** A candidate the filter of the selector loop turns down, in the words of
    the specification. *)
Definition boilerplate (name : jsstring) : Prop :=
  includes name (js "Google Maps") = true
  \/ includes name (js "Directions") = true
  \/ includes name (js "Reviews") = true
  \/ (List.length name <= 2)%nat
  \/ (100 <= List.length name)%nat.

(** The selector finds nothing, or an element whose trimmed text the filter
    turns down. *)
Definition no_valid_match (d : Document) (selector : jsstring) : Prop :=
  forall el, querySelector d selector = Some el ->
             passes_filter (trim (textContent el)) = false.

Definition no_valid_structural_match (d : Document) : Prop :=
  forall selector, In selector nameSelectors -> no_valid_match d selector.

Definition no_structural_match (d : Document) : Prop :=
  forall selector, In selector nameSelectors -> querySelector d selector = None.

(** The title stage returns nothing for the title [t]: it is empty, it
    contains the brand marker, or its first piece is empty or trims to at
    most two code units. *)
Definition title_yields_nothing (t : jsstring) : Prop :=
  truthy t = false
  \/ includes t (js "Google Maps") = true
  \/ (forall part, nth_error (split t (js " - ")) 0 = Some part ->
        truthy part && (2 <? List.length (trim part))%nat = false).

(** What the address stage and the final [return null] produce for the
    address [url], the console apart. *)
Definition address_outcome (url : jsstring) : Outcome :=
  match match_place url with
  | None => Returned JSNull
  | Some (_, capture1) =>
      match decodeURIComponent capture1 with
      | Some decoded => Returned (JSString (replace_plus_with_space decoded))
      | None => Thrown URIError
      end
  end.

(** The three lines every run starts with. *)
Definition prologue (win : Window) : list (list jsstring) :=
  [[js "Attempting to extract restaurant name..."];
   [js "Current URL:"; href (location win)];
   [js "Page title:"; title (document win)]].

(** A page with no element at all, a given title and a given address, with
    empty settings and an empty console. *)
Definition blank_page (t url : jsstring) : World :=
  {| window := {| document := {| querySelector := fun _ => None; title := t |};
                  location := {| href := url |} |};
     chrome_storage_local := [];
     console := [] |}.

(** A page on which exactly the given selectors find an element. *)
Fixpoint lookup_selector (elements : list (jsstring * jsstring)) (selector : jsstring)
  : option Element :=
  match elements with
  | [] => None
  | (s, text) :: elements' =>
      if list_eq_dec N.eq_dec s selector
      then Some {| textContent := text |}
      else lookup_selector elements' selector
  end.

Definition page_with (elements : list (jsstring * jsstring)) (t url : jsstring) : World :=
  {| window := {| document := {| querySelector := lookup_selector elements; title := t |};
                  location := {| href := url |} |};
     chrome_storage_local := [];
     console := [] |}.

(** ** The other readers of the page, and the callers *)

(** popup.js: isGoogleMapsPage. *)
Definition isGoogleMapsPage (url : jsstring) : bool :=
  includes url (js "google.com/maps") || includes url (js "maps.google.com").

(** The text of [s] before the first occurrence of [sep]; all of [s] when
    [sep] does not occur. *)
Fixpoint before_first (sep s : jsstring) : jsstring :=
  match s with
  | [] => []
  | c :: s' => if starts_with sep s then [] else c :: before_first sep s'
  end.

(** The character classes [\d.] and [\d,] (no unicode flag: \d is 0-9). *)
Definition is_digit (c : code_unit) : bool := (0x30 <=? c) && (c <=? 0x39).
Definition digit_or_dot (c : code_unit) : bool := is_digit c || (c =? 0x2E).
Definition digit_or_comma (c : code_unit) : bool := is_digit c || (c =? 0x2C).

(** String.prototype.match with /[class]+/: the leftmost code unit of the
    class and the longest run of the class from there; element 0 of the
    match array, or null. *)
Fixpoint take_run (class : code_unit -> bool) (s : jsstring) : jsstring :=
  match s with
  | [] => []
  | c :: s' => if class c then c :: take_run class s' else []
  end.

Fixpoint match_run (class : code_unit -> bool) (s : jsstring) : option jsstring :=
  match s with
  | [] => None
  | c :: s' => if class c then Some (c :: take_run class s') else match_run class s'
  end.

(** The loop "for (const selector of selectors) { element = querySelector;
    if (element && element.textContent.trim()) { x = trimmed text; break } }"
    on a variable that starts as the empty string. *)
Fixpoint first_text (d : Document) (selectors : list jsstring) : jsstring :=
  match selectors with
  | [] => []
  | selector :: rest =>
      match querySelector d selector with
      | Some element =>
          if truthy (trim (textContent element))
          then trim (textContent element)
          else first_text d rest
      | None => first_text d rest
      end
  end.

(** The same loop with a regular expression applied to the untrimmed text:
    it breaks only when the expression matches. *)
Fixpoint first_run (class : code_unit -> bool) (d : Document)
    (selectors : list jsstring) : jsstring :=
  match selectors with
  | [] => []
  | selector :: rest =>
      match querySelector d selector with
      | Some element =>
          if truthy (trim (textContent element))
          then match match_run class (textContent element) with
               | Some whole => whole
               | None => first_run class d rest
               end
          else first_run class d rest
      | None => first_run class d rest
      end
  end.

(** popup.js: getRestaurantDataFromPage; [None] is null. *)
Module PageData.
Record t := { name : jsstring; rating : jsstring }.
End PageData.

Definition popup_nameSelectors : list jsstring :=
  [ js "h1[data-attrid=" ++ quoted (js "title") ++ js "]";
    js "h1.x3AX1-LfntMc-header-title-title";
    js "[data-value=" ++ quoted (js "title") ++ js "]";
    js "h1" ].

Definition popup_ratingSelectors : list jsstring :=
  [ js "[data-value=" ++ quoted (js "rating") ++ js "] span";
    js ".ceNzKf";
    js "[aria-label*=" ++ quoted (js "stars") ++ js "]" ].

Definition getRestaurantDataFromPage (win : Window) : option PageData.t :=
  let name := first_text (document win) popup_nameSelectors in
  let rating := first_run digit_or_dot (document win) popup_ratingSelectors in
  if truthy name
  then Some {| PageData.name := name;
               PageData.rating := if truthy rating then rating else js "N/A" |}
  else None.

(** content.js: extractRestaurantData.  [now] is the value of
    new Date().toISOString() at the call.  The calls inside the try block
    do not throw on a page of this model, so the catch block has no run. *)
Module RestaurantData.
Record t := {
  name : jsstring;
  rating : jsstring;
  address : jsstring;
  reviewCount : jsstring;
  url : jsstring;
  timestamp : jsstring
}.
End RestaurantData.

Definition content_nameSelectors : list jsstring :=
  [ js "h1[data-attrid=" ++ quoted (js "title") ++ js "]";
    js "h1.x3AX1-LfntMc-header-title-title";
    js "h1.DUwDvf";
    js "[data-value=" ++ quoted (js "title") ++ js "]";
    js "h1";
    js ".qrShPb" ].

Definition content_ratingSelectors : list jsstring :=
  [ js "[data-value=" ++ quoted (js "rating") ++ js "] span";
    js ".ceNzKf";
    js ".F7nice span[aria-hidden=" ++ quoted (js "true") ++ js "]";
    js "[jsaction*=" ++ quoted (js "pane.rating.moreReviews") ++ js "]";
    js "span[aria-label*=" ++ quoted (js "stars") ++ js "]" ].

Definition content_addressSelectors : list jsstring :=
  [ js "[data-value=" ++ quoted (js "address") ++ js "]";
    js ".Io6YTe";
    js ".rogA2c" ].

Definition content_reviewSelectors : list jsstring :=
  [ js "[data-value=" ++ quoted (js "review_count") ++ js "]";
    js "button[jsaction*=" ++ quoted (js "pane.rating.moreReviews") ++ js "] span";
    js ".F7nice span:not([aria-hidden=" ++ quoted (js "true") ++ js "])" ].

(** A call of console.log with a label and the extracted record. *)
Inductive ContentLog :=
| LogData (label : jsstring) (data : RestaurantData.t).

Definition extractRestaurantData (win : Window) (now : jsstring)
  : RestaurantData.t * list ContentLog :=
  let name := first_text (document win) content_nameSelectors in
  let rating := first_run digit_or_dot (document win) content_ratingSelectors in
  let address := first_text (document win) content_addressSelectors in
  let reviewCount := first_run digit_or_comma (document win) content_reviewSelectors in
  let result :=
    {| RestaurantData.name := if truthy name then name else js "Unknown Restaurant";
       RestaurantData.rating := if truthy rating then rating else js "N/A";
       RestaurantData.address := if truthy address then address else [];
       RestaurantData.reviewCount := if truthy reviewCount then reviewCount else [];
       RestaurantData.url := href (location win);
       RestaurantData.timestamp := now |} in
  (result, [LogData (js "Extracted restaurant data:") result]).

(** popup.js: getBasicRestaurantName.  [script] is how the promise of
    chrome.scripting.executeScript settles: with the array of injection
    results, or with an error (of which console.error shows the message).
    The value is paired with the calls of console.error. *)
Record InjectionResult := { result : JSValue }.

Inductive Settled (A : Type) :=
| Fulfilled (a : A)
| Rejected (message : jsstring).

Arguments Fulfilled {A} a.
Arguments Rejected {A} message.

Definition value_truthy (v : JSValue) : bool :=
  match v with
  | JSString s => truthy s
  | JSNull | JSUndefined => false
  end.

Definition getBasicRestaurantName (script : Settled (list InjectionResult))
  : JSValue * list (list jsstring) :=
  match script with
  | Fulfilled results =>
      match nth_error results 0 with
      | Some first =>
          (if value_truthy (result first) then result first else JSNull, [])
      | None => (JSNull, [])
      end
  | Rejected message =>
      (JSNull, [[js "Error extracting basic restaurant name:"; message]])
  end.

(** ** background.js *)

Definition jsstring_eqb (a b : jsstring) : bool :=
  if list_eq_dec N.eq_dec a b then true else false.

(** chrome.storage.local as a list of keys with their values, one entry a
    key: lookup, the update of one key, set (which merges the given items
    into the store) and get with a list of keys (which answers with the
    keys that are present). *)
Fixpoint storage_lookup (key : jsstring) (store : list (jsstring * StoredValue))
  : option StoredValue :=
  match store with
  | [] => None
  | (k, v) :: rest => if jsstring_eqb k key then Some v else storage_lookup key rest
  end.

Fixpoint storage_put (key : jsstring) (v : StoredValue)
    (store : list (jsstring * StoredValue)) : list (jsstring * StoredValue) :=
  match store with
  | [] => [(key, v)]
  | (k, x) :: rest =>
      if jsstring_eqb k key then (key, v) :: rest
      else (k, x) :: storage_put key v rest
  end.

Definition storage_set (items store : list (jsstring * StoredValue))
  : list (jsstring * StoredValue) :=
  fold_left (fun st item => storage_put (fst item) (snd item) st) items store.

Definition storage_get (keys : list jsstring) (store : list (jsstring * StoredValue))
  : list (jsstring * StoredValue) :=
  flat_map (fun k => match storage_lookup k store with
                     | Some v => [(k, v)]
                     | None => []
                     end) keys.

(** A message to the service worker: its action and, for saveSettings, the
    object under [settings] (taken to be present: set has no signature for
    undefined). *)
Record Request := {
  action : jsstring;
  settings : list (jsstring * StoredValue)
}.

(** What sendResponse is called with. *)
Inductive Response :=
| ServerStatus (running : bool) (status : option nat) (error : option jsstring)
| Settings (items : list (jsstring * StoredValue))
| Success
| UnknownAction (error : jsstring).

(** How the fetch of /health ends within the five seconds allowed: with a
    response, or with an error and its message. *)
Inductive HealthOutcome :=
| HealthResponse (ok : bool) (status : nat)
| HealthFailed (message : jsstring).

(** The calls of console.log: with strings, or with a label and the
    request received. *)
Inductive BackgroundLog :=
| LogText (args : list jsstring)
| LogRequest (label : jsstring) (request : Request).

(** The state the service worker acts on: the stored settings, the badge
    of every tab, and its console. *)
Record Background := {
  storage_local : list (jsstring * StoredValue);
  badgeText : nat -> jsstring;
  badgeBackgroundColor : nat -> option jsstring;
  background_console : list BackgroundLog
}.

Definition background_log (entry : BackgroundLog) (st : Background) : Background :=
  {| storage_local := storage_local st;
     badgeText := badgeText st;
     badgeBackgroundColor := badgeBackgroundColor st;
     background_console := background_console st ++ [entry] |}.

Definition background_store (items : list (jsstring * StoredValue)) (st : Background)
  : Background :=
  {| storage_local := storage_set items (storage_local st);
     badgeText := badgeText st;
     badgeBackgroundColor := badgeBackgroundColor st;
     background_console := background_console st |}.

Definition setBadgeText (tabId : nat) (text : jsstring) (st : Background) : Background :=
  {| storage_local := storage_local st;
     badgeText := fun tab => if Nat.eqb tab tabId then text else badgeText st tab;
     badgeBackgroundColor := badgeBackgroundColor st;
     background_console := background_console st |}.

Definition setBadgeBackgroundColor (tabId : nat) (color : jsstring) (st : Background)
  : Background :=
  {| storage_local := storage_local st;
     badgeText := badgeText st;
     badgeBackgroundColor :=
       fun tab => if Nat.eqb tab tabId then Some color else badgeBackgroundColor st tab;
     background_console := background_console st |}.

(** chrome.runtime.onInstalled. *)
Definition onInstalled (reason : jsstring) (st : Background) : Background :=
  let st1 := background_log
               (LogText [js "Restaurant Review Scraper extension installed"]) st in
  if jsstring_eqb reason (js "install")
  then
    let st2 := background_log (LogText [js "First time installation"]) st1 in
    background_store [(js "defaultReviewCount", StoredNumber 50);
                      (js "serverUrl", StoredString (js "http://localhost:5000"))] st2
  else st1.

Definition checkServerStatus (health : HealthOutcome) : Response :=
  match health with
  | HealthResponse ok status => ServerStatus ok (Some status) None
  | HealthFailed message => ServerStatus false None (Some message)
  end.

(** chrome.runtime.onMessage: the new state, the response sent, and
    whether the listener returned true. *)
Definition onMessage (request : Request) (health : HealthOutcome) (st : Background)
  : Background * Response * bool :=
  let st1 := background_log
               (LogRequest (js "Background script received message:") request) st in
  if jsstring_eqb (action request) (js "checkServer")
  then (st1, checkServerStatus health, true)
  else if jsstring_eqb (action request) (js "getSettings")
  then (st1,
        Settings (storage_get [js "defaultReviewCount"; js "serverUrl"]
                              (storage_local st1)),
        true)
  else if jsstring_eqb (action request) (js "saveSettings")
  then (background_store (settings request) st1, Success, true)
  else (st1, UnknownAction (js "Unknown action"), false).

(** The pin shown on the badge, U+1F4CD, as its two code units. *)
Definition pin : jsstring := [0xD83D; 0xDCCD].

(** chrome.tabs.onUpdated: [status] is changeInfo.status and [url] is
    tab.url, either of which may be undefined. *)
Definition tabs_onUpdated (tabId : nat) (status url : option jsstring)
    (st : Background) : Background :=
  match status, url with
  | Some s, Some u =>
      if jsstring_eqb s (js "complete") && truthy u
      then
        let isGoogleMaps :=
          includes u (js "google.com/maps") || includes u (js "maps.google.com") in
        if isGoogleMaps
        then setBadgeBackgroundColor tabId (js "#4CAF50") (setBadgeText tabId pin st)
        else setBadgeText tabId [] st
      else st
  | _, _ => st
  end.

(** Tactics for concrete pages: a selector list is walked entry by entry,
    a console is searched line by line. *)
Ltac walk_selectors tac :=
  let s := fresh "s" in
  let H := fresh "H" in
  intros s H; simpl in H;
  repeat (destruct H as [<-|H]; [tac|]);
  try contradiction.

Ltac rejected_here :=
  let el := fresh "el" in
  let Hq := fresh "Hq" in
  intros el Hq; vm_compute in Hq;
  first [discriminate Hq | injection Hq as <-; vm_compute; reflexivity].

Ltac find_line :=
  vm_compute; repeat (first [left; reflexivity | right]).

(** ** Running statements *)

Section Runs.

Variable win : Window.

Lemma log_append_nil (w : World) : log_append w [] = w.
Proof.
  destruct w as [p s c]; unfold log_append; simpl.
  now rewrite app_nil_r.
Qed.

Lemma log_append_app (w : World) (l l' : list (list jsstring)) :
  log_append (log_append w l) l' = log_append w (l ++ l').
Proof.
  unfold log_append; simpl. now rewrite app_assoc.
Qed.

Lemma runs_ret {A} (a : A) : runs_as (ret a) win (Normal a) [].
Proof. intros w _. unfold ret. now rewrite log_append_nil. Qed.

Lemma runs_return {A} (v : JSValue) : runs_as (@return_ A v) win (Return v) [].
Proof. intros w _. unfold return_. now rewrite log_append_nil. Qed.

Lemma runs_throw {A} (e : Error) : runs_as (@throw A e) win (Throw e) [].
Proof. intros w _. unfold throw. now rewrite log_append_nil. Qed.

Lemma runs_console_log (args : list jsstring) :
  runs_as (console_log args) win (Normal tt) [args].
Proof. intros w _. reflexivity. Qed.

Lemma runs_querySelector (selector : jsstring) :
  runs_as (document_querySelector selector) win
    (Normal (querySelector (document win) selector)) [].
Proof.
  intros w Hw. unfold document_querySelector.
  now rewrite log_append_nil, Hw.
Qed.

Lemma runs_title : runs_as document_title win (Normal (title (document win))) [].
Proof.
  intros w Hw. unfold document_title. now rewrite log_append_nil, Hw.
Qed.

Lemma runs_href :
  runs_as window_location_href win (Normal (href (location win))) [].
Proof.
  intros w Hw. unfold window_location_href. now rewrite log_append_nil, Hw.
Qed.

Lemma runs_bind_normal {A B} (m : M A) (k : A -> M B) a l c l' :
  runs_as m win (Normal a) l ->
  runs_as (k a) win c l' ->
  runs_as (bind m k) win c (l ++ l').
Proof.
  intros Hm Hk w Hw. unfold bind.
  rewrite (Hm w Hw), (Hk (log_append w l) Hw).
  now rewrite log_append_app.
Qed.

Lemma runs_bind_return {A B} (m : M A) (k : A -> M B) v l :
  runs_as m win (Return v) l ->
  runs_as (bind m k) win (Return v) l.
Proof. intros Hm w Hw. unfold bind. now rewrite (Hm w Hw). Qed.

Lemma runs_bind_throw {A B} (m : M A) (k : A -> M B) e l :
  runs_as m win (Throw e) l ->
  runs_as (bind m k) win (Throw e) l.
Proof. intros Hm w Hw. unfold bind. now rewrite (Hm w Hw). Qed.

(** A statement that writes one line and goes on. *)
Lemma runs_log_then {B} (args : list jsstring) (k : M B) c l :
  runs_as k win c l ->
  runs_as (console_log args ;; k) win c (args :: l).
Proof.
  intro Hk.
  exact (runs_bind_normal (console_log args) (fun _ => k) tt [args] c l
           (runs_console_log args) Hk).
Qed.

(** Two runs of one statement on one page agree. *)
Lemma runs_as_functional {A} (m : M A) c l c' l' :
  runs_as m win c l -> runs_as m win c' l' -> c = c' /\ l = l'.
Proof.
  intros H H'.
  pose (w0 := {| window := win; chrome_storage_local := []; console := [] |}).
  assert (E : (c, log_append w0 l) = (c', log_append w0 l')).
  { rewrite <- (H w0 eq_refl). apply (H' w0 eq_refl). }
  inversion E; subst; split; reflexivity.
Qed.

(** *** The selector loop *)

Lemma loop_falls_through (rest : list jsstring) :
  (forall selector, In selector rest -> no_valid_match (document win) selector) ->
  forall i, exists l, runs_as (selector_loop i rest) win (Normal tt) l.
Proof.
  induction rest as [|selector rest IH]; intros Hrej i.
  - exists []. apply runs_ret.
  - destruct (IH (fun s Hs => Hrej s (or_intror Hs)) (S i)) as [l Hl].
    simpl selector_loop.
    destruct (querySelector (document win) selector) as [el|] eqn:Hq.
    + eexists. apply runs_log_then.
      eapply runs_bind_normal; [apply runs_querySelector|].
      rewrite Hq.
      eapply runs_bind_normal; [|exact Hl].
      apply runs_log_then.
      rewrite (Hrej selector (or_introl eq_refl) el Hq).
      apply runs_ret.
    + eexists. apply runs_log_then.
      eapply runs_bind_normal; [apply runs_querySelector|].
      rewrite Hq.
      eapply runs_bind_normal; [apply runs_console_log|exact Hl].
Qed.

Lemma loop_returns_first (pre : list jsstring) :
  forall selector post el,
    (forall s, In s pre -> no_valid_match (document win) s) ->
    querySelector (document win) selector = Some el ->
    passes_filter (trim (textContent el)) = true ->
    forall i, exists l,
      runs_as (selector_loop i (pre ++ selector :: post)) win
        (Return (JSString (trim (textContent el)))) l.
Proof.
  induction pre as [|s pre IH]; intros selector post el Hrej Hq Hok i.
  - simpl app. simpl selector_loop.
    eexists. apply runs_log_then.
    eapply runs_bind_normal; [apply runs_querySelector|].
    rewrite Hq.
    apply runs_bind_return.
    apply runs_log_then.
    rewrite Hok.
    apply runs_log_then. apply runs_return.
  - destruct (IH selector post el (fun s' Hs' => Hrej s' (or_intror Hs')) Hq Hok (S i))
      as [l Hl].
    simpl app. simpl selector_loop.
    destruct (querySelector (document win) s) as [e|] eqn:Hs.
    + eexists. apply runs_log_then.
      eapply runs_bind_normal; [apply runs_querySelector|].
      rewrite Hs.
      eapply runs_bind_normal; [|exact Hl].
      apply runs_log_then.
      rewrite (Hrej s (or_introl eq_refl) e Hs).
      apply runs_ret.
    + eexists. apply runs_log_then.
      eapply runs_bind_normal; [apply runs_querySelector|].
      rewrite Hs.
      eapply runs_bind_normal; [apply runs_console_log|exact Hl].
Qed.

End Runs.

(** ** The three stages and the whole function *)

Section Stages.

Variable win : Window.

Let d := document win.
Let t := title (document win).
Let url := href (location win).

Lemma runs_read_then {A B} (m : M A) (k : A -> M B) a c l :
  runs_as m win (Normal a) [] ->
  runs_as (k a) win c l ->
  runs_as (bind m k) win c l.
Proof.
  intros Hm Hk. exact (runs_bind_normal win m k a [] c l Hm Hk).
Qed.

(** The title stage leaves one line and falls through. *)
Lemma title_falls_through :
  title_yields_nothing t ->
  runs_as title_fallback win (Normal tt) [[js "Trying page title fallback..."]].
Proof.
  intros H. unfold title_fallback.
  apply runs_log_then.
  eapply runs_read_then; [apply runs_title|].
  fold t.
  destruct (truthy t) eqn:Ht; simpl andb; [|apply runs_ret].
  destruct (includes t (js "Google Maps")) eqn:Hi; simpl negb; [apply runs_ret|].
  destruct H as [H|[H|H]]; try congruence.
  destruct (nth_error (split t (js " - ")) 0) as [part|] eqn:Hp; [|apply runs_ret].
  rewrite (H part eq_refl). apply runs_ret.
Qed.

(** The title stage returns the trimmed first piece. *)
Lemma title_returns (part : jsstring) :
  truthy t = true ->
  includes t (js "Google Maps") = false ->
  nth_error (split t (js " - ")) 0 = Some part ->
  truthy part && (2 <? List.length (trim part))%nat = true ->
  runs_as title_fallback win (Return (JSString (trim part)))
    [[js "Trying page title fallback..."];
     [js "Found name from title: " ++ quoted (trim part)]].
Proof.
  intros Ht Hi Hp Hlen. unfold title_fallback.
  apply runs_log_then.
  eapply runs_read_then; [apply runs_title|].
  fold t. rewrite Ht, Hi. simpl andb. cbv iota.
  rewrite Hp, Hlen.
  apply runs_log_then. apply runs_return.
Qed.

(** Either the title stage yields nothing or it has a piece to return. *)
Lemma title_cases :
  title_yields_nothing t
  \/ exists part,
       truthy t = true /\ includes t (js "Google Maps") = false
       /\ nth_error (split t (js " - ")) 0 = Some part
       /\ truthy part && (2 <? List.length (trim part))%nat = true.
Proof.
  unfold title_yields_nothing.
  destruct (truthy t) eqn:Ht; [|now left; left].
  destruct (includes t (js "Google Maps")) eqn:Hi; [now left; right; left|].
  destruct (nth_error (split t (js " - ")) 0) as [part|] eqn:Hp.
  - destruct (truthy part && (2 <? List.length (trim part))%nat) eqn:Hlen.
    + right. exists part. auto.
    + left. right. right. intros p Hp'. congruence.
  - left. right. right. intros p Hp'. discriminate.
Qed.

(** The address stage: its first line, and its outcome. *)
Lemma url_runs :
  exists c l,
    runs_as url_fallback win c ([js "Trying URL extraction..."] :: l)
    /\ outcome_of c = address_outcome url.
Proof.
  unfold url_fallback, address_outcome.
  destruct (match_place url) as [[full capture1]|] eqn:Hm.
  - destruct (decodeURIComponent capture1) as [decoded|] eqn:Hd.
    + exists (Return (JSString (replace_plus_with_space decoded))).
      eexists. split; [|reflexivity].
      apply runs_log_then.
      eapply runs_read_then; [apply runs_href|].
      fold url. rewrite Hm.
      apply runs_bind_return.
      rewrite Hd. simpl lift_URIError.
      eapply runs_read_then; [apply runs_ret|].
      apply runs_log_then. apply runs_return.
    + exists (Throw URIError), []. split; [|reflexivity].
      apply runs_log_then.
      eapply runs_read_then; [apply runs_href|].
      fold url. rewrite Hm.
      apply runs_bind_throw.
      rewrite Hd. simpl lift_URIError.
      apply runs_bind_throw. apply runs_throw.
  - exists (Return JSNull). eexists. split; [|reflexivity].
    apply runs_log_then.
    eapply runs_read_then; [apply runs_href|].
    fold url. rewrite Hm.
    eapply runs_read_then; [apply runs_ret|].
    apply runs_log_then. apply runs_return.
Qed.

(** Either no selector has a valid match or there is a first one. *)
Lemma selector_cases (rest : list jsstring) :
  (forall selector, In selector rest -> no_valid_match d selector)
  \/ exists pre selector post el,
       rest = pre ++ selector :: post
       /\ (forall s, In s pre -> no_valid_match d s)
       /\ querySelector d selector = Some el
       /\ passes_filter (trim (textContent el)) = true.
Proof.
  induction rest as [|s rest IH].
  - left. intros ? [].
  - destruct (querySelector d s) as [el|] eqn:Hq.
    + destruct (passes_filter (trim (textContent el))) eqn:Hok.
      * right. exists [], s, rest, el. repeat split; auto. intros ? [].
      * destruct IH as [IH|(pre & sel & post & e & -> & Hpre & Hsel & Hv)].
        -- left. intros s' [<-|Hs']; [|now apply IH].
           intros e He. unfold d in *. congruence.
        -- right. exists (s :: pre), sel, post, e. repeat split; auto.
           intros s' [<-|Hs']; [|now apply Hpre].
           intros e' He'. unfold d in *. congruence.
    + destruct IH as [IH|(pre & sel & post & e & -> & Hpre & Hsel & Hv)].
      * left. intros s' [<-|Hs']; [|now apply IH].
        intros e He. unfold d in *. congruence.
      * right. exists (s :: pre), sel, post, e. repeat split; auto.
        intros s' [<-|Hs']; [|now apply Hpre].
        intros e' He'. unfold d in *. congruence.
Qed.

Lemma body_runs c l :
  runs_as (selector_loop 0 nameSelectors ;; title_fallback ;; url_fallback) win c l ->
  runs_as getRestaurantNameOnly_body win c (prologue win ++ l).
Proof.
  intro H. unfold getRestaurantNameOnly_body, prologue. simpl app.
  apply runs_log_then.
  eapply runs_read_then; [apply runs_href|].
  apply runs_log_then.
  eapply runs_read_then; [apply runs_title|].
  apply runs_log_then. exact H.
Qed.

(** Stage 1 has a first valid match: the body returns its trimmed text. *)
Lemma body_stage1 pre selector post el :
  nameSelectors = pre ++ selector :: post ->
  (forall s, In s pre -> no_valid_match d s) ->
  querySelector d selector = Some el ->
  passes_filter (trim (textContent el)) = true ->
  exists l, runs_as getRestaurantNameOnly_body win
              (Return (JSString (trim (textContent el)))) l.
Proof.
  intros Hsplit Hpre Hq Hok.
  destruct (loop_returns_first win pre selector post el Hpre Hq Hok 0%nat) as [l Hl].
  rewrite <- Hsplit in Hl.
  eexists. apply body_runs. apply runs_bind_return. exact Hl.
Qed.

(** Stage 1 finds nothing valid: the body goes on with the title stage,
    whose first line is in the console. *)
Lemma body_stage2 c l :
  no_valid_structural_match d ->
  runs_as (title_fallback ;; url_fallback) win c l ->
  exists l1, runs_as getRestaurantNameOnly_body win c (prologue win ++ l1 ++ l).
Proof.
  intros H1 H2.
  destruct (loop_falls_through win nameSelectors H1 0%nat) as [l1 Hl1].
  exists l1. apply body_runs.
  eapply runs_bind_normal; [exact Hl1|exact H2].
Qed.

(** Stages 1 and 2 find nothing: the body ends with the address stage. *)
Lemma body_stage3 :
  no_valid_structural_match d ->
  title_yields_nothing t ->
  exists c l1 l3,
    runs_as getRestaurantNameOnly_body win c
      (prologue win ++ l1 ++ [js "Trying page title fallback..."]
                         :: [js "Trying URL extraction..."] :: l3)
    /\ outcome_of c = address_outcome url.
Proof.
  intros H1 H2.
  destruct url_runs as (c & l3 & Hu & Hc).
  pose proof (runs_bind_normal win title_fallback (fun _ => url_fallback) tt _ c _
                (title_falls_through H2) Hu) as H23.
  destruct (body_stage2 c _ H1 H23) as [l1 Hb].
  exists c, l1, l3. split; [exact Hb|exact Hc].
Qed.

End Stages.

(** From a run of the body to the call. *)
Lemma call_of_run (w : World) c l :
  runs_as getRestaurantNameOnly_body (window w) c l ->
  getRestaurantNameOnly w = (outcome_of c, log_append w l).
Proof.
  intro H. unfold getRestaurantNameOnly, call.
  rewrite (H w eq_refl). now destruct c.
Qed.

Lemma resolve_of_run (w : World) c l :
  runs_as getRestaurantNameOnly_body (window w) c l ->
  resolve w = outcome_of c /\ logged w = l.
Proof.
  intro H. unfold resolve, logged.
  rewrite (call_of_run w c l H). simpl. split; [reflexivity|].
  rewrite skipn_app, skipn_all, Nat.sub_diag. reflexivity.
Qed.

(** ** Facts about the built-ins *)

Lemma read_escape_shorter s B rest :
  read_escape s = Some (B, rest) -> (List.length rest < List.length s)%nat.
Proof.
  destruct s as [|p [|h [|l r]]]; simpl; try discriminate.
  destruct (p =? 0x25); try discriminate.
  destruct (ParseHexOctet h l); try discriminate.
  intros [= _ <-]. lia.
Qed.

Lemma read_continuations_shorter j :
  forall s bs rest,
    read_continuations j s = Some (bs, rest) ->
    (List.length rest <= List.length s)%nat.
Proof.
  induction j as [|j IH]; simpl; intros s bs rest H.
  - injection H as _ <-. lia.
  - destruct (read_escape s) as [[b r]|] eqn:He; try discriminate.
    destruct (read_continuations j r) as [[bs' r']|] eqn:Hc; try discriminate.
    injection H as _ <-.
    apply read_escape_shorter in He. apply IH in Hc. lia.
Qed.

(** An iteration of Decode consumes its code unit and never gives back
    more input than it was given. *)
Lemma decode_step_shorter C s piece rest :
  decode_step C s = Some (piece, rest) ->
  (List.length rest <= List.length s)%nat.
Proof.
  unfold decode_step.
  destruct (C =? 0x25).
  - destruct (read_escape (C :: s)) as [[B r]|] eqn:He; try discriminate.
    apply read_escape_shorter in He. simpl in He.
    destruct (leading_ones B) as [|[|[|[|[|n]]]]]; try discriminate;
      try (intros [= _ <-]; lia);
      (destruct (read_continuations _ r) as [[conts r']|] eqn:Hc; try discriminate;
       destruct (utf8_code_point (B :: conts)); try discriminate;
       intros [= _ <-]; apply read_continuations_shorter in Hc; lia).
  - intros [= _ <-]. lia.
Qed.

(** An iteration of Decode appends at least one code unit. *)
Lemma decode_step_nonempty C s piece rest :
  decode_step C s = Some (piece, rest) -> piece <> [].
Proof.
  unfold decode_step.
  destruct (C =? 0x25).
  - destruct (read_escape (C :: s)) as [[B r]|]; try discriminate.
    destruct (leading_ones B) as [|[|[|[|[|n]]]]]; try discriminate;
      try (intros [= <- _]; discriminate);
      (destruct (read_continuations _ r) as [[conts r']|]; try discriminate;
       destruct (utf8_code_point (B :: conts)) as [V|]; try discriminate;
       intros [= <- _]; unfold UTF16EncodeCodePoint;
       destruct (V <=? 0xFFFF); discriminate).
  - intros [= <- _]. discriminate.
Qed.

(** The bound of [Decode] is never reached: any bound that is at least the
    length of the input gives the same result, so [None] is always the
    URIError of the algorithm. *)
Lemma Decode_bound_enough b :
  forall s b', (List.length s <= b)%nat -> (List.length s <= b')%nat ->
               Decode b s = Decode b' s.
Proof.
  induction b as [|b IH]; intros s b' Hb Hb'.
  - destruct s; [now destruct b'|simpl in Hb; lia].
  - destruct s as [|C s]; [now destruct b'|].
    destruct b' as [|b']; [simpl in Hb'; lia|].
    simpl in *.
    destruct (decode_step C s) as [[piece rest]|] eqn:Hs; [|reflexivity].
    apply decode_step_shorter in Hs.
    rewrite (IH rest b'); [reflexivity|lia|lia].
Qed.

Lemma decodeURIComponent_nonempty s decoded :
  decodeURIComponent s = Some decoded -> s <> [] -> decoded <> [].
Proof.
  unfold decodeURIComponent.
  destruct s as [|C s]; [congruence|]. intros H _.
  simpl in H.
  destruct (decode_step C s) as [[piece rest]|] eqn:Hs; try discriminate.
  destruct (Decode (List.length s) rest); try discriminate.
  injection H as <-.
  apply decode_step_nonempty in Hs.
  destruct piece; [congruence|discriminate].
Qed.

(** Without a '%' there is nothing to decode. *)
Lemma Decode_no_percent s :
  (forall c, In c s -> c <> 0x25) ->
  forall b, (List.length s <= b)%nat -> Decode b s = Some s.
Proof.
  induction s as [|C s IH]; intros Hs b Hb.
  - now destruct b.
  - destruct b as [|b]; [simpl in Hb; lia|].
    simpl. unfold decode_step.
    destruct (N.eqb_spec C 0x25) as [E|_].
    + exfalso. apply (Hs C); [now left|exact E].
    + rewrite IH; [reflexivity| |simpl in Hb; lia].
      intros c Hc. apply Hs. now right.
Qed.

Lemma decodeURIComponent_no_percent s :
  (forall c, In c s -> c <> 0x25) -> decodeURIComponent s = Some s.
Proof.
  intro H. apply Decode_no_percent; [exact H|apply le_n].
Qed.

Lemma replace_plus_nonempty s : s <> [] -> replace_plus_with_space s <> [].
Proof. destruct s; [congruence|discriminate]. Qed.

Lemma replace_plus_no_plus s :
  (forall c, In c s -> c <> 0x2B) -> replace_plus_with_space s = s.
Proof.
  induction s as [|c s IH]; intro H; [reflexivity|].
  simpl. destruct (N.eqb_spec c 0x2B) as [E|_].
  - exfalso. apply (H c); [now left|exact E].
  - f_equal. apply IH. intros c' Hc'. apply H. now right.
Qed.

(** The capture of the regular expression is never empty. *)
Lemma place_regexp_at_nonempty s full capture1 :
  place_regexp_at s = Some (full, capture1) -> capture1 <> [].
Proof.
  unfold place_regexp_at.
  destruct (starts_with (js "/place/") s); try discriminate.
  destruct (take_non_slash (skipn 7 s)) as [|c seg]; try discriminate.
  intros [= _ <-]. discriminate.
Qed.

Lemma match_place_nonempty s :
  forall full capture1, match_place s = Some (full, capture1) -> capture1 <> [].
Proof.
  induction s as [|c s IH]; intros full capture1; simpl.
  - discriminate.
  - destruct (place_regexp_at (c :: s)) as [[f g]|] eqn:E.
    + intros [= <- <-]. eapply place_regexp_at_nonempty; eauto.
    + apply IH.
Qed.

Lemma take_non_slash_all s :
  (forall c, In c s -> c <> 0x2F) -> take_non_slash s = s.
Proof.
  induction s as [|c s IH]; intro H; [reflexivity|].
  simpl. destruct (N.eqb_spec c 0x2F) as [E|_].
  - exfalso. apply (H c); [now left|exact E].
  - f_equal. apply IH. intros c' Hc'. apply H. now right.
Qed.

(** Behind the address of the maps site, a non-empty path piece without
    '/' is what the regular expression captures. *)
Lemma match_place_maps segment :
  segment <> [] ->
  (forall c, In c segment -> c <> 0x2F) ->
  match_place (js "https://www.google.com/maps/place/" ++ segment)
  = Some (js "/place/" ++ segment, segment).
Proof.
  intros Hne Hs.
  cbn -[take_non_slash].
  unfold place_regexp_at. cbn -[take_non_slash].
  rewrite (take_non_slash_all segment Hs).
  destruct segment; [congruence|reflexivity].
Qed.

(** The filter turns down exactly the boilerplate candidates. *)
Lemma passes_filter_false_iff name :
  passes_filter name = false <-> boilerplate name.
Proof.
  unfold passes_filter, boilerplate.
  destruct (includes name (js "Google Maps")); simpl.
  { rewrite andb_false_r. simpl. tauto. }
  destruct (includes name (js "Directions")); simpl.
  { rewrite andb_false_r. simpl. tauto. }
  destruct (includes name (js "Reviews")); simpl.
  { rewrite andb_false_r. simpl. tauto. }
  rewrite !andb_true_r.
  destruct (Nat.ltb_spec 2 (List.length name)) as [H2|H2];
    destruct (Nat.ltb_spec (List.length name) 100) as [H100|H100];
    destruct name as [|c name]; simpl in *; try lia;
    split; try (intros [H|[H|[H|[H|H]]]]); try discriminate; try lia; intuition lia.
Qed.

(** ** The outcome of a call, stage by stage *)

Lemma resolve_stage1 (w : World) pre selector post el :
  nameSelectors = pre ++ selector :: post ->
  (forall s, In s pre -> no_valid_match (document (window w)) s) ->
  querySelector (document (window w)) selector = Some el ->
  passes_filter (trim (textContent el)) = true ->
  resolve w = Returned (JSString (trim (textContent el))).
Proof.
  intros Hsplit Hpre Hq Hok.
  destruct (body_stage1 (window w) pre selector post el Hsplit Hpre Hq Hok) as [l Hl].
  now destruct (resolve_of_run w _ _ Hl).
Qed.

(** What the title and address stages do on a page, begun by the first
    line of the title stage. *)
Lemma stages23_run (win : Window) :
  exists c l,
    runs_as (title_fallback ;; url_fallback) win c
      ([js "Trying page title fallback..."] :: l).
Proof.
  destruct (title_cases win) as [Hn|(part & Ht & Hi & Hp & Hlen)].
  - destruct (url_runs win) as (c & l & Hu & _).
    exists c. eexists.
    exact (runs_bind_normal win title_fallback (fun _ => url_fallback) tt _ c _
             (title_falls_through win Hn) Hu).
  - exists (Return (JSString (trim part))). eexists.
    apply runs_bind_return.
    exact (title_returns win part Ht Hi Hp Hlen).
Qed.

Lemma resolve_stage2 (w : World) part :
  no_valid_structural_match (document (window w)) ->
  truthy (title (document (window w))) = true ->
  includes (title (document (window w))) (js "Google Maps") = false ->
  nth_error (split (title (document (window w))) (js " - ")) 0 = Some part ->
  truthy part && (2 <? List.length (trim part))%nat = true ->
  resolve w = Returned (JSString (trim part))
  /\ In [js "Found name from title: " ++ quoted (trim part)] (logged w).
Proof.
  intros H1 Ht Hi Hp Hlen.
  pose proof (title_returns (window w) part Ht Hi Hp Hlen) as Hr.
  pose proof (runs_bind_return (window w) title_fallback (fun _ => url_fallback) _ _ Hr)
    as H23.
  destruct (body_stage2 (window w) _ _ H1 H23) as [l1 Hb].
  destruct (resolve_of_run w _ _ Hb) as [-> ->].
  split; [reflexivity|].
  apply in_or_app. right. apply in_or_app. right. simpl. auto.
Qed.

Lemma resolve_stage3 (w : World) :
  no_valid_structural_match (document (window w)) ->
  title_yields_nothing (title (document (window w))) ->
  resolve w = address_outcome (href (location (window w)))
  /\ In [js "Trying page title fallback..."] (logged w)
  /\ In [js "Trying URL extraction..."] (logged w).
Proof.
  intros H1 H2.
  destruct (body_stage3 (window w) H1 H2) as (c & l1 & l3 & Hb & Hc).
  destruct (resolve_of_run w _ _ Hb) as [-> ->].
  split; [exact Hc|].
  split; apply in_or_app; right; apply in_or_app; right; simpl; auto.
Qed.

(** Every call ends in one of the three stages. *)
Lemma resolve_cases (w : World) :
  (exists pre selector post el,
      nameSelectors = pre ++ selector :: post
      /\ (forall s, In s pre -> no_valid_match (document (window w)) s)
      /\ querySelector (document (window w)) selector = Some el
      /\ passes_filter (trim (textContent el)) = true
      /\ resolve w = Returned (JSString (trim (textContent el))))
  \/ (no_valid_structural_match (document (window w))
      /\ exists part,
           nth_error (split (title (document (window w))) (js " - ")) 0 = Some part
           /\ resolve w = Returned (JSString (trim part)))
  \/ (no_valid_structural_match (document (window w))
      /\ title_yields_nothing (title (document (window w)))
      /\ resolve w = address_outcome (href (location (window w)))).
Proof.
  destruct (selector_cases (window w) nameSelectors)
    as [H1|(pre & selector & post & el & Hs & Hpre & Hq & Hok)].
  - right.
    destruct (title_cases (window w)) as [H2|(part & Ht & Hi & Hp & Hlen)].
    + right. repeat split; auto. now apply resolve_stage3.
    + left. split; [exact H1|]. exists part. split; [exact Hp|].
      now apply resolve_stage2.
  - left. exists pre, selector, post, el. repeat split; auto.
    eapply resolve_stage1; eauto.
Qed.

(** Every call is a run of the body on the page: it has an outcome, and
    that outcome and the lines written depend on the page alone. *)
Lemma body_total (win : Window) :
  exists c l, runs_as getRestaurantNameOnly_body win c l.
Proof.
  destruct (selector_cases win nameSelectors)
    as [H1|(pre & selector & post & el & Hs & Hpre & Hq & Hok)].
  - destruct (stages23_run win) as (c & l & H23).
    destruct (body_stage2 win c _ H1 H23) as [l1 Hb].
    eauto.
  - destruct (body_stage1 win pre selector post el Hs Hpre Hq Hok) as [l Hl].
    eauto.
Qed.

Lemma address_outcome_cases (url : jsstring) :
  address_outcome url = Returned JSNull
  \/ (exists s, address_outcome url = Returned (JSString s))
  \/ (address_outcome url = Thrown URIError
      /\ exists full segment,
           match_place url = Some (full, segment)
           /\ decodeURIComponent segment = None).
Proof.
  unfold address_outcome.
  destruct (match_place url) as [[full segment]|]; [|now left].
  destruct (decodeURIComponent segment) as [decoded|] eqn:Hd.
  - right. left. eauto.
  - right. right. split; [reflexivity|]. eauto.
Qed.

Lemma no_structural_no_valid (d : Document) :
  no_structural_match d -> no_valid_structural_match d.
Proof.
  intros H selector Hin el Hq. rewrite (H selector Hin) in Hq. discriminate.
Qed.

Lemma marker_title_yields_nothing (t : jsstring) :
  includes t (js "Google Maps") = true -> title_yields_nothing t.
Proof. intro H. right. now left. Qed.

(** ** The properties of the specification *)

(** C1, as the code has it.  When no selector has a valid match and the
    title is "Luigi's Pizzeria - Google Maps", the whole title contains
    the marker "Google Maps": the title stage writes its first line and
    falls through without splitting, and the outcome of the call is that of
    the address stage: null when the address has no /place/ piece, the
    decoding of the piece with '+' turned into spaces when the piece
    decodes, and the URIError exception when it does not. *)
Theorem C1_marker_title_skips_split (w : World) :
  no_valid_structural_match (document (window w)) ->
  title (document (window w)) = js "Luigi's Pizzeria - Google Maps" ->
  runs_as title_fallback (window w) (Normal tt)
    [[js "Trying page title fallback..."]]
  /\ resolve w = address_outcome (href (location (window w)))
  /\ (match_place (href (location (window w))) = None ->
      resolve w = Returned JSNull)
  /\ (forall full segment decoded,
        match_place (href (location (window w))) = Some (full, segment) ->
        decodeURIComponent segment = Some decoded ->
        resolve w = Returned (JSString (replace_plus_with_space decoded)))
  /\ (forall full segment,
        match_place (href (location (window w))) = Some (full, segment) ->
        decodeURIComponent segment = None ->
        resolve w = Thrown URIError).
Proof.
  intros H1 Ht.
  assert (H2 : title_yields_nothing (title (document (window w)))).
  { apply marker_title_yields_nothing. rewrite Ht. vm_compute. reflexivity. }
  destruct (resolve_stage3 w H1 H2) as [Hr _].
  split; [now apply title_falls_through|].
  split; [exact Hr|].
  rewrite Hr. unfold address_outcome.
  split; [intros ->; reflexivity|].
  split.
  - intros full segment decoded -> ->. reflexivity.
  - intros full segment -> ->. reflexivity.
Qed.

(** The title with the marker on three pages without elements: an address
    without /place/ gives null, the address of the pizzeria gives its name,
    and a piece that is not percent-encoding makes the call throw. *)
Lemma C1_marker_title_witness :
  resolve (blank_page (js "Luigi's Pizzeria - Google Maps")
                      (js "https://www.google.com/maps/search/pizza"))
  = Returned JSNull
  /\ resolve (blank_page (js "Luigi's Pizzeria - Google Maps")
                (js "https://www.google.com/maps/place/Luigi%27s+Pizzeria/@40.7,-74.0"))
     = Returned (JSString (js "Luigi's Pizzeria"))
  /\ resolve (blank_page (js "Luigi's Pizzeria - Google Maps")
                (js "https://www.google.com/maps/place/100%/@40.7,-74.0"))
     = Thrown URIError.
Proof.
  split; [|split].
  - refine (proj1 (proj2 (proj2
              (C1_marker_title_skips_split
                 (blank_page (js "Luigi's Pizzeria - Google Maps")
                             (js "https://www.google.com/maps/search/pizza")) _ _))) _).
    + intros s _ el Hq. discriminate Hq.
    + reflexivity.
    + vm_compute. reflexivity.
  - refine (proj1 (proj2 (proj2 (proj2
              (C1_marker_title_skips_split
                 (blank_page (js "Luigi's Pizzeria - Google Maps")
                    (js "https://www.google.com/maps/place/Luigi%27s+Pizzeria/@40.7,-74.0"))
                 _ _))))
              (js "/place/Luigi%27s+Pizzeria") (js "Luigi%27s+Pizzeria")
              (js "Luigi's+Pizzeria") _ _).
    + intros s _ el Hq. discriminate Hq.
    + reflexivity.
    + vm_compute. reflexivity.
    + vm_compute. reflexivity.
  - refine (proj2 (proj2 (proj2 (proj2
              (C1_marker_title_skips_split
                 (blank_page (js "Luigi's Pizzeria - Google Maps")
                    (js "https://www.google.com/maps/place/100%/@40.7,-74.0"))
                 _ _))))
              (js "/place/100%") (js "100%") _ _).
    + intros s _ el Hq. discriminate Hq.
    + reflexivity.
    + vm_compute. reflexivity.
    + vm_compute. reflexivity.
Defined.

(** C1 as stated fails: on a page without elements whose title is
    "Luigi's Pizzeria - Google Maps" and whose address has no /place/
    piece, the call returns null, not "Luigi's Pizzeria". *)
Lemma C1_counterexample :
  no_valid_structural_match
    (document (window (blank_page (js "Luigi's Pizzeria - Google Maps")
                                  (js "https://www.google.com/maps/search/pizza"))))
  /\ title (document (window (blank_page (js "Luigi's Pizzeria - Google Maps")
                                         (js "https://www.google.com/maps/search/pizza"))))
     = js "Luigi's Pizzeria - Google Maps"
  /\ resolve (blank_page (js "Luigi's Pizzeria - Google Maps")
                         (js "https://www.google.com/maps/search/pizza"))
     = Returned JSNull
  /\ resolve (blank_page (js "Luigi's Pizzeria - Google Maps")
                         (js "https://www.google.com/maps/search/pizza"))
     <> Returned (JSString (js "Luigi's Pizzeria")).
Proof.
  split; [intros s _ el Hq; discriminate Hq|].
  split; [reflexivity|].
  split; [vm_compute; reflexivity|].
  vm_compute. discriminate.
Qed.

(** C2, as the code has it.  A call throws only [URIError], and exactly
    when no selector has a valid match, the title stage yields nothing and
    the /place/ piece of the address is not percent-encoded UTF-8; every
    other call returns null or a string. *)
Theorem C2_throws_only_on_malformed_place (w : World) :
  (resolve w = Thrown URIError
   <-> no_valid_structural_match (document (window w))
       /\ title_yields_nothing (title (document (window w)))
       /\ exists full segment,
            match_place (href (location (window w))) = Some (full, segment)
            /\ decodeURIComponent segment = None)
  /\ (resolve w = Thrown URIError
      \/ resolve w = Returned JSNull
      \/ exists s, resolve w = Returned (JSString s)).
Proof.
  split.
  - split.
    + intro Hthrow.
      destruct (resolve_cases w)
        as [(pre & sel & post & el & _ & _ & _ & _ & Hr)
           |[(_ & part & _ & Hr)|(H1 & H2 & Hr)]];
        try (rewrite Hr in Hthrow; discriminate Hthrow).
      repeat split; auto.
      rewrite Hr in Hthrow.
      destruct (address_outcome_cases (href (location (window w))))
        as [E|[[s E]|[_ E]]]; try (rewrite E in Hthrow; discriminate Hthrow).
      exact E.
    + intros (H1 & H2 & full & segment & Hm & Hd).
      destruct (resolve_stage3 w H1 H2) as [-> _].
      unfold address_outcome. now rewrite Hm, Hd.
  - destruct (resolve_cases w)
      as [(pre & sel & post & el & _ & _ & _ & _ & Hr)
         |[(_ & part & _ & Hr)|(H1 & H2 & Hr)]].
    + right. right. eauto.
    + right. right. eauto.
    + rewrite Hr.
      destruct (address_outcome_cases (href (location (window w))))
        as [E|[[s E]|[E _]]]; rewrite E; eauto.
Qed.

Lemma C2_throws_witness :
  resolve (blank_page (js "Google Maps")
                      (js "https://www.google.com/maps/place/100%/@40.7,-74.0"))
  = Thrown URIError.
Proof.
  apply (proj2 (proj1 (C2_throws_only_on_malformed_place
                         (blank_page (js "Google Maps")
                            (js "https://www.google.com/maps/place/100%/@40.7,-74.0"))))).
  split; [intros s _ el Hq; discriminate Hq|].
  split; [right; left; vm_compute; reflexivity|].
  exists (js "/place/100%"), (js "100%").
  split; vm_compute; reflexivity.
Defined.

(** C2 as stated fails: on a page without elements titled "Google Maps"
    whose address is .../place/100%/@40.7,-74.0 the call throws. *)
Lemma C2_counterexample :
  exists e,
    resolve (blank_page (js "Google Maps")
                        (js "https://www.google.com/maps/place/100%/@40.7,-74.0"))
    = Thrown e.
Proof. exists URIError. vm_compute. reflexivity. Qed.

(** C3.  When the selectors before [selector] in the priority list have no
    valid match and [selector] has one, the call returns the trimmed text
    of its element, whatever the selectors after it match.  And whenever
    some selector of the list has a valid match, there is such a first one,
    and its trimmed text is what the call returns. *)
Theorem C3_first_valid_selector_wins :
  (forall w pre selector post el,
      nameSelectors = pre ++ selector :: post ->
      (forall s, In s pre -> no_valid_match (document (window w)) s) ->
      querySelector (document (window w)) selector = Some el ->
      passes_filter (trim (textContent el)) = true ->
      resolve w = Returned (JSString (trim (textContent el))))
  /\ (forall w,
        (exists selector el,
            In selector nameSelectors
            /\ querySelector (document (window w)) selector = Some el
            /\ passes_filter (trim (textContent el)) = true) ->
        exists pre selector post el,
          nameSelectors = pre ++ selector :: post
          /\ (forall s, In s pre -> no_valid_match (document (window w)) s)
          /\ querySelector (document (window w)) selector = Some el
          /\ passes_filter (trim (textContent el)) = true
          /\ resolve w = Returned (JSString (trim (textContent el)))).
Proof.
  split.
  - intros w pre selector post el. apply resolve_stage1.
  - intros w (selector & el & Hin & Hq & Hok).
    destruct (resolve_cases w)
      as [Hfirst|[(H1 & _)|(H1 & _)]];
      [exact Hfirst| |];
      rewrite (H1 selector Hin el Hq) in Hok; discriminate Hok.
Qed.

(** Two selectors match at once, ".fontHeadlineSmall" (seventh in the list)
    and "h1" (eighth): the text of the seventh is returned, trimmed. *)
Lemma C3_higher_priority_witness :
  resolve (page_with [(js "h1", js "Trattoria Roma");
                      (js ".fontHeadlineSmall", js "  Luigi's Pizzeria ")]
                     (js "Google Maps") (js "https://www.google.com/maps"))
  = Returned (JSString (js "Luigi's Pizzeria")).
Proof.
  apply (proj1 C3_first_valid_selector_wins
           (page_with [(js "h1", js "Trattoria Roma");
                       (js ".fontHeadlineSmall", js "  Luigi's Pizzeria ")]
                      (js "Google Maps") (js "https://www.google.com/maps"))
           (firstn 6 nameSelectors) (js ".fontHeadlineSmall")
           (skipn 7 nameSelectors)
           {| textContent := js "  Luigi's Pizzeria " |}).
  - reflexivity.
  - walk_selectors rejected_here.
  - vm_compute. reflexivity.
  - vm_compute. reflexivity.
Defined.

(** C4.  The filter turns a candidate down exactly when it contains
    "Google Maps", "Directions" or "Reviews", or has at most 2 or at least
    100 code units.  When every element the selectors find has such a text,
    the call goes past the loop: the first line of the title stage is
    written, and the outcome is that of the title and address stages on the
    same page. *)
Theorem C4_boilerplate_falls_through :
  (forall name, passes_filter name = false <-> boilerplate name)
  /\ (forall w,
        (forall selector el,
            In selector nameSelectors ->
            querySelector (document (window w)) selector = Some el ->
            boilerplate (trim (textContent el))) ->
        In [js "Trying page title fallback..."] (logged w)
        /\ forall w2, window w2 = window w ->
                      resolve w = fst (call (title_fallback ;; url_fallback) w2)).
Proof.
  split; [exact passes_filter_false_iff|].
  intros w Hb.
  assert (H1 : no_valid_structural_match (document (window w))).
  { intros selector Hin el Hq. apply passes_filter_false_iff. eauto. }
  destruct (stages23_run (window w)) as (c & l & H23).
  destruct (body_stage2 (window w) c _ H1 H23) as [l1 Hbody].
  destruct (resolve_of_run w _ _ Hbody) as [-> ->].
  split.
  - apply in_or_app. right. apply in_or_app. right. now left.
  - intros w2 Hw2. unfold call. rewrite (H23 w2 Hw2). now destruct c.
Qed.

(** A page whose only elements read "Reviews", "x" and 150 letters. *)
Lemma C4_boilerplate_witness :
  In [js "Trying page title fallback..."]
     (logged (page_with [(js "h1", js "Reviews");
                         (js ".fontHeadlineSmall", js " x ");
                         (js ".DUwDvf.lfPIob", repeat 0x61 150)]
                        (js "Luigi's Pizzeria - Maps")
                        (js "https://www.google.com/maps")))
  /\ resolve (page_with [(js "h1", js "Reviews");
                         (js ".fontHeadlineSmall", js " x ");
                         (js ".DUwDvf.lfPIob", repeat 0x61 150)]
                        (js "Luigi's Pizzeria - Maps")
                        (js "https://www.google.com/maps"))
     = Returned (JSString (js "Luigi's Pizzeria")).
Proof.
  destruct (proj2 C4_boilerplate_falls_through
              (page_with [(js "h1", js "Reviews");
                          (js ".fontHeadlineSmall", js " x ");
                          (js ".DUwDvf.lfPIob", repeat 0x61 150)]
                         (js "Luigi's Pizzeria - Maps")
                         (js "https://www.google.com/maps"))) as [Hlog Hres].
  - intros selector el Hin. revert el. revert selector Hin.
    walk_selectors
      ltac:(let el := fresh "el" in
            let Hq := fresh "Hq" in
            intros el Hq; vm_compute in Hq;
            first [discriminate Hq
                  | injection Hq as <-; apply passes_filter_false_iff;
                    vm_compute; reflexivity]).
  - split; [exact Hlog|].
    rewrite (Hres _ eq_refl). vm_compute. reflexivity.
Defined.

(** C5, as the code has it.  When no selector has a valid match and the
    title stage yields nothing, an address that matches /place/<piece>
    whose piece is percent-encoded UTF-8 makes the call return the piece,
    percent-decoded and then with every '+' turned into a space; a piece
    that does not decode makes the call throw URIError instead.  For
    .../place/Luigi%27s+Pizzeria/@40.7,-74.0 the call returns
    "Luigi's Pizzeria". *)
Theorem C5_address_fallback_decodes :
  (forall w full segment decoded,
      no_valid_structural_match (document (window w)) ->
      title_yields_nothing (title (document (window w))) ->
      match_place (href (location (window w))) = Some (full, segment) ->
      decodeURIComponent segment = Some decoded ->
      resolve w = Returned (JSString (replace_plus_with_space decoded)))
  /\ (forall w full segment,
        no_valid_structural_match (document (window w)) ->
        title_yields_nothing (title (document (window w))) ->
        match_place (href (location (window w))) = Some (full, segment) ->
        decodeURIComponent segment = None ->
        resolve w = Thrown URIError)
  /\ (forall w,
        no_valid_structural_match (document (window w)) ->
        title_yields_nothing (title (document (window w))) ->
        href (location (window w))
        = js "https://www.google.com/maps/place/Luigi%27s+Pizzeria/@40.7,-74.0" ->
        resolve w = Returned (JSString (js "Luigi's Pizzeria"))).
Proof.
  split; [|split].
  - intros w full segment decoded H1 H2 Hm Hd.
    destruct (resolve_stage3 w H1 H2) as [-> _].
    unfold address_outcome. now rewrite Hm, Hd.
  - intros w full segment H1 H2 Hm Hd.
    destruct (resolve_stage3 w H1 H2) as [-> _].
    unfold address_outcome. now rewrite Hm, Hd.
  - intros w H1 H2 Hu.
    destruct (resolve_stage3 w H1 H2) as [-> _].
    rewrite Hu. vm_compute. reflexivity.
Qed.

Lemma C5_address_witness :
  resolve (blank_page (js "Google Maps")
             (js "https://www.google.com/maps/place/Luigi%27s+Pizzeria/@40.7,-74.0"))
  = Returned (JSString (js "Luigi's Pizzeria")).
Proof.
  apply (proj2 (proj2 C5_address_fallback_decodes)).
  - intros s _ el Hq. discriminate Hq.
  - right. left. vm_compute. reflexivity.
  - reflexivity.
Defined.

(** C5 as stated fails: on a page without elements titled "Google Maps"
    (no valid match, no name from the title) the address
    .../place/100%/@40.7,-74.0 matches the template with the piece "100%",
    and the call returns no string: it throws. *)
Lemma C5_counterexample :
  no_valid_structural_match
    (document (window (blank_page (js "Google Maps")
                         (js "https://www.google.com/maps/place/100%/@40.7,-74.0"))))
  /\ title_yields_nothing
       (title (document (window (blank_page (js "Google Maps")
                                   (js "https://www.google.com/maps/place/100%/@40.7,-74.0")))))
  /\ match_place
       (href (location (window (blank_page (js "Google Maps")
                                  (js "https://www.google.com/maps/place/100%/@40.7,-74.0")))))
     = Some (js "/place/100%", js "100%")
  /\ resolve (blank_page (js "Google Maps")
                (js "https://www.google.com/maps/place/100%/@40.7,-74.0"))
     = Thrown URIError
  /\ (forall s,
        resolve (blank_page (js "Google Maps")
                   (js "https://www.google.com/maps/place/100%/@40.7,-74.0"))
        <> Returned (JSString s)).
Proof.
  split; [intros s _ el Hq; discriminate Hq|].
  split; [right; left; vm_compute; reflexivity|].
  split; [vm_compute; reflexivity|].
  assert (E : resolve (blank_page (js "Google Maps")
                         (js "https://www.google.com/maps/place/100%/@40.7,-74.0"))
              = Thrown URIError) by (vm_compute; reflexivity).
  split; [exact E|].
  intros s. rewrite E. discriminate.
Qed.

(** C6.  When no selector has a valid match and the title is exactly
    "Google Maps", the title stage writes its first line and falls through,
    the address stage is entered, and the call yields what the address
    stage yields. *)
Theorem C6_marker_title_goes_to_address (w : World) :
  no_valid_structural_match (document (window w)) ->
  title (document (window w)) = js "Google Maps" ->
  runs_as title_fallback (window w) (Normal tt)
    [[js "Trying page title fallback..."]]
  /\ In [js "Trying URL extraction..."] (logged w)
  /\ resolve w = address_outcome (href (location (window w))).
Proof.
  intros H1 Ht.
  assert (H2 : title_yields_nothing (title (document (window w)))).
  { apply marker_title_yields_nothing. rewrite Ht. vm_compute. reflexivity. }
  split; [now apply title_falls_through|].
  destruct (resolve_stage3 w H1 H2) as (Hr & _ & Hlog). auto.
Qed.

Lemma C6_marker_title_witness :
  runs_as title_fallback
    (window (blank_page (js "Google Maps") (js "https://www.google.com/maps/place/Roma")))
    (Normal tt) [[js "Trying page title fallback..."]]
  /\ In [js "Trying URL extraction..."]
        (logged (blank_page (js "Google Maps")
                            (js "https://www.google.com/maps/place/Roma")))
  /\ resolve (blank_page (js "Google Maps") (js "https://www.google.com/maps/place/Roma"))
     = address_outcome (js "https://www.google.com/maps/place/Roma").
Proof.
  apply (C6_marker_title_goes_to_address
           (blank_page (js "Google Maps") (js "https://www.google.com/maps/place/Roma"))).
  - intros s _ el Hq. discriminate Hq.
  - reflexivity.
Defined.

(** C7.  When no selector finds an element, the title is the marker and
    the address has no /place/ piece, the call returns null, which is not
    the empty string. *)
Theorem C7_all_stages_fail_null (w : World) :
  no_structural_match (document (window w)) ->
  title (document (window w)) = js "Google Maps" ->
  match_place (href (location (window w))) = None ->
  resolve w = Returned JSNull /\ resolve w <> Returned (JSString []).
Proof.
  intros H1 Ht Hm.
  assert (H2 : title_yields_nothing (title (document (window w)))).
  { apply marker_title_yields_nothing. rewrite Ht. vm_compute. reflexivity. }
  destruct (resolve_stage3 w (no_structural_no_valid _ H1) H2) as [Hr _].
  unfold address_outcome in Hr. rewrite Hm in Hr.
  rewrite Hr. split; [reflexivity|discriminate].
Qed.

Lemma C7_null_witness :
  resolve (blank_page (js "Google Maps") (js "https://www.google.com/maps/@40.7,-74.0,15z"))
  = Returned JSNull
  /\ resolve (blank_page (js "Google Maps")
                         (js "https://www.google.com/maps/@40.7,-74.0,15z"))
     <> Returned (JSString []).
Proof.
  apply (C7_all_stages_fail_null
           (blank_page (js "Google Maps") (js "https://www.google.com/maps/@40.7,-74.0,15z"))).
  - intros s _. reflexivity.
  - reflexivity.
  - vm_compute. reflexivity.
Defined.

(** C8.  A call leaves the page and the stored settings as they were and
    only adds lines to the console; calling again on the world it leaves
    gives the same outcome, and so does a call on any world that shows the
    same page. *)
Theorem C8_read_only_and_repeatable (w : World) :
  window (snd (getRestaurantNameOnly w)) = window w
  /\ chrome_storage_local (snd (getRestaurantNameOnly w)) = chrome_storage_local w
  /\ (exists l, console (snd (getRestaurantNameOnly w)) = console w ++ l)
  /\ resolve (snd (getRestaurantNameOnly w)) = resolve w
  /\ (forall w2, window w2 = window w -> resolve w2 = resolve w).
Proof.
  destruct (body_total (window w)) as (c & l & Hrun).
  assert (Hsame : forall w2, window w2 = window w -> resolve w2 = resolve w).
  { intros w2 Hw2.
    destruct (resolve_of_run w c l Hrun) as [-> _].
    rewrite <- Hw2 in Hrun.
    now destruct (resolve_of_run w2 c l Hrun) as [-> _]. }
  pose proof (call_of_run w c l Hrun) as Hcall.
  rewrite Hcall. simpl.
  repeat split; try reflexivity.
  - now exists l.
  - now apply Hsame.
  - exact Hsame.
Qed.

(** A world with settings stored and lines already in its console gives
    the outcome of the fresh world that shows the same page. *)
Lemma C8_repeatable_witness :
  resolve {| window := window (blank_page (js "Luigi's Pizzeria - Maps")
                                          (js "https://www.google.com/maps"));
             chrome_storage_local :=
               [(js "defaultReviewCount", StoredNumber 50);
                (js "serverUrl", StoredString (js "http://localhost:5000"))];
             console := [[js "Restaurant data loaded:"]] |}
  = resolve (blank_page (js "Luigi's Pizzeria - Maps") (js "https://www.google.com/maps")).
Proof.
  apply (proj2 (proj2 (proj2 (proj2
           (C8_read_only_and_repeatable
              (blank_page (js "Luigi's Pizzeria - Maps")
                          (js "https://www.google.com/maps"))))))).
  reflexivity.
Defined.

(** C9.  The filter guards the selector loop only.  On pages without any
    element the title stage returns "Directions", "Reviews" and a name of
    100 letters, each of which the filter would turn down; and the address
    stage returns whatever non-empty piece follows /place/, of any length
    and content (here: free of '/' and '%', so that it is its own
    decoding), for instance "Google Maps" or the two letters "ab". *)
Theorem C9_filter_only_in_selector_loop :
  (exists w s,
      no_structural_match (document (window w))
      /\ resolve w = Returned (JSString s)
      /\ In [js "Found name from title: " ++ quoted s] (logged w)
      /\ includes s (js "Directions") = true
      /\ passes_filter s = false)
  /\ (exists w s,
        no_structural_match (document (window w))
        /\ resolve w = Returned (JSString s)
        /\ In [js "Found name from title: " ++ quoted s] (logged w)
        /\ includes s (js "Reviews") = true
        /\ passes_filter s = false)
  /\ (exists w s,
        no_structural_match (document (window w))
        /\ resolve w = Returned (JSString s)
        /\ In [js "Found name from title: " ++ quoted s] (logged w)
        /\ (100 <= List.length s)%nat
        /\ passes_filter s = false)
  /\ (forall w segment,
        no_structural_match (document (window w)) ->
        title_yields_nothing (title (document (window w))) ->
        href (location (window w)) = js "https://www.google.com/maps/place/" ++ segment ->
        segment <> [] ->
        (forall c, In c segment -> c <> 0x2F /\ c <> 0x25) ->
        resolve w = Returned (JSString (replace_plus_with_space segment)))
  /\ (exists w s,
        no_structural_match (document (window w))
        /\ resolve w = Returned (JSString s)
        /\ In [js "Found name from URL: " ++ quoted s] (logged w)
        /\ includes s (js "Google Maps") = true
        /\ passes_filter s = false)
  /\ (exists w s,
        no_structural_match (document (window w))
        /\ resolve w = Returned (JSString s)
        /\ In [js "Found name from URL: " ++ quoted s] (logged w)
        /\ List.length s = 2%nat
        /\ passes_filter s = false).
Proof.
  split.
  { exists (blank_page (js "Directions - Luigi's Pizzeria") (js "https://www.google.com/maps")),
           (js "Directions").
    split; [intros s _; reflexivity|].
    split; [vm_compute; reflexivity|].
    split; [find_line|].
    split; vm_compute; reflexivity. }
  split.
  { exists (blank_page (js "Reviews") (js "https://www.google.com/maps")), (js "Reviews").
    split; [intros s _; reflexivity|].
    split; [vm_compute; reflexivity|].
    split; [find_line|].
    split; vm_compute; reflexivity. }
  split.
  { exists (blank_page (repeat 0x61 100) (js "https://www.google.com/maps")),
           (repeat 0x61 100).
    split; [intros s _; reflexivity|].
    split; [vm_compute; reflexivity|].
    split; [find_line|].
    split; [vm_compute; lia|vm_compute; reflexivity]. }
  split.
  { intros w segment H1 H2 Hu Hne Hs.
    destruct (resolve_stage3 w (no_structural_no_valid _ H1) H2) as [-> _].
    unfold address_outcome.
    rewrite Hu, (match_place_maps segment Hne (fun c Hc => proj1 (Hs c Hc))).
    rewrite (decodeURIComponent_no_percent segment (fun c Hc => proj2 (Hs c Hc))).
    reflexivity. }
  split.
  { exists (blank_page (js "Google Maps") (js "https://www.google.com/maps/place/Google+Maps")),
           (js "Google Maps").
    split; [intros s _; reflexivity|].
    split; [vm_compute; reflexivity|].
    split; [find_line|].
    split; vm_compute; reflexivity. }
  { exists (blank_page (js "Google Maps") (js "https://www.google.com/maps/place/ab")),
           (js "ab").
    split; [intros s _; reflexivity|].
    split; [vm_compute; reflexivity|].
    split; [find_line|].
    split; vm_compute; reflexivity. }
Qed.

(** A piece of 120 letters behind /place/ comes back whole. *)
Lemma C9_address_unfiltered_witness :
  resolve (blank_page (js "Google Maps")
                      (js "https://www.google.com/maps/place/" ++ repeat 0x61 120))
  = Returned (JSString (replace_plus_with_space (repeat 0x61 120))).
Proof.
  apply (proj1 (proj2 (proj2 (proj2 C9_filter_only_in_selector_loop)))).
  - intros s _. reflexivity.
  - right. left. vm_compute. reflexivity.
  - reflexivity.
  - discriminate.
  - intros c Hc. apply repeat_spec in Hc. subst c. split; discriminate.
Defined.

(** C10.  The piece captured from an address that matches /place/<piece>
    is never empty.  When the address stage is reached and the address
    matches, the call does not return null, any string it returns is not
    empty, and when the piece decodes it returns the decoding with '+'
    turned into spaces, untrimmed.  For the address .../place/+/ that
    string is a single space, which trims to the empty string. *)
Theorem C10_address_result_untrimmed :
  (forall url full segment,
      match_place url = Some (full, segment) -> segment <> [])
  /\ (forall w full segment,
      no_valid_structural_match (document (window w)) ->
      title_yields_nothing (title (document (window w))) ->
      match_place (href (location (window w))) = Some (full, segment) ->
      segment <> []
      /\ resolve w <> Returned JSNull
      /\ (forall s, resolve w = Returned (JSString s) -> s <> [])
      /\ (forall decoded,
            decodeURIComponent segment = Some decoded ->
            resolve w = Returned (JSString (replace_plus_with_space decoded))
            /\ replace_plus_with_space decoded <> []))
  /\ (exists w s,
        no_structural_match (document (window w))
        /\ match_place (href (location (window w))) = Some (js "/place/+", js "+")
        /\ resolve w = Returned (JSString s)
        /\ s = js " "
        /\ trim s = []
        /\ trim s <> s).
Proof.
  split; [exact match_place_nonempty|].
  split.
  - intros w full segment H1 H2 Hm.
    pose proof (match_place_nonempty _ _ _ Hm) as Hne.
    destruct (resolve_stage3 w H1 H2) as [Hr _].
    unfold address_outcome in Hr. rewrite Hm in Hr.
    split; [exact Hne|].
    destruct (decodeURIComponent segment) as [decoded|] eqn:Hd.
    + pose proof (replace_plus_nonempty _ (decodeURIComponent_nonempty _ _ Hd Hne)) as Hr'.
      rewrite Hr.
      split; [discriminate|].
      split; [intros s [= <-]; exact Hr'|].
      intros decoded' [= <-]. split; [reflexivity|exact Hr'].
    + rewrite Hr.
      split; [discriminate|].
      split; [discriminate|].
      intros decoded' Hd'. discriminate Hd'.
  - exists (blank_page (js "Google Maps") (js "https://www.google.com/maps/place/+/")),
           (js " ").
    split; [intros s _; reflexivity|].
    repeat split; try (vm_compute; reflexivity).
    vm_compute. discriminate.
Qed.

Lemma C10_nonempty_witness :
  js "Luigi%27s+Pizzeria" <> []
  /\ resolve (blank_page (js "Google Maps")
                (js "https://www.google.com/maps/place/Luigi%27s+Pizzeria/@40.7,-74.0"))
     <> Returned JSNull.
Proof.
  destruct (proj1 (proj2 C10_address_result_untrimmed)
              (blank_page (js "Google Maps")
                 (js "https://www.google.com/maps/place/Luigi%27s+Pizzeria/@40.7,-74.0"))
              (js "/place/Luigi%27s+Pizzeria") (js "Luigi%27s+Pizzeria"))
    as (Hne & Hnull & _).
  - intros s _ el Hq. discriminate Hq.
  - right. left. vm_compute. reflexivity.
  - vm_compute. reflexivity.
  - split; [exact Hne|exact Hnull].
Defined.

(** ** Further properties of the built-ins as the code uses them *)

Section Trim.

Let blank (c : code_unit) : Prop := is_trimmable c = true.

Lemma trimStart_split (s : jsstring) :
  exists lead, s = lead ++ trimStart s /\ Forall blank lead.
Proof.
  induction s as [|c s (lead & E & Hl)].
  - exists []. split; [reflexivity|constructor].
  - simpl. destruct (is_trimmable c) eqn:Hc.
    + exists (c :: lead). split; [simpl; congruence|].
      constructor; [exact Hc|exact Hl].
    + exists []. split; [reflexivity|constructor].
Qed.

Lemma trimStart_head (s : jsstring) c r :
  trimStart s = c :: r -> is_trimmable c = false.
Proof.
  induction s as [|a s IH]; simpl; [discriminate|].
  destruct (is_trimmable a) eqn:Ha; [exact IH|].
  intros [= <- _]. exact Ha.
Qed.

Lemma trimStart_fixed (s : jsstring) :
  (forall c r, s = c :: r -> is_trimmable c = false) -> trimStart s = s.
Proof.
  destruct s as [|c s]; [reflexivity|].
  intro H. simpl. now rewrite (H c s eq_refl).
Qed.

Lemma trimEnd_split (t : jsstring) :
  exists trail, t = trimEnd t ++ trail /\ Forall blank trail.
Proof.
  destruct (trimStart_split (rev t)) as (lead & E & Hl).
  exists (rev lead). split.
  - unfold trimEnd. rewrite <- rev_app_distr, <- E. now rewrite rev_involutive.
  - now apply Forall_rev.
Qed.

Lemma trimEnd_last (t : jsstring) front c :
  trimEnd t = front ++ [c] -> is_trimmable c = false.
Proof.
  unfold trimEnd. intro H.
  apply (f_equal (@rev code_unit)) in H.
  rewrite rev_involutive, rev_app_distr in H. simpl in H.
  eapply trimStart_head. exact H.
Qed.

Lemma trim_head (s : jsstring) c r :
  trim s = c :: r -> is_trimmable c = false.
Proof.
  unfold trim. intro H.
  destruct (trimEnd_split (trimStart s)) as (trail & E & _).
  rewrite H in E. simpl in E.
  eapply trimStart_head. exact E.
Qed.

Lemma trim_last (s : jsstring) front c :
  trim s = front ++ [c] -> is_trimmable c = false.
Proof. unfold trim. apply trimEnd_last. Qed.

Lemma trim_fixed (s : jsstring) :
  (forall c r, s = c :: r -> is_trimmable c = false) ->
  (forall front c, s = front ++ [c] -> is_trimmable c = false) ->
  trim s = s.
Proof.
  intros Hhead Hlast. unfold trim.
  rewrite (trimStart_fixed s Hhead).
  unfold trimEnd. rewrite trimStart_fixed; [apply rev_involutive|].
  intros c r E. apply (Hlast (rev r) c).
  apply (f_equal (@rev code_unit)) in E.
  rewrite rev_involutive in E. exact E.
Qed.

Lemma trim_idempotent (s : jsstring) : trim (trim s) = trim s.
Proof.
  apply trim_fixed.
  - apply trim_head.
  - apply trim_last.
Qed.

Lemma trim_split (s : jsstring) :
  exists lead trail,
    s = lead ++ trim s ++ trail /\ Forall blank lead /\ Forall blank trail.
Proof.
  destruct (trimStart_split s) as (lead & E1 & Hl).
  destruct (trimEnd_split (trimStart s)) as (trail & E2 & Ht).
  exists lead, trail. repeat split; auto.
  unfold trim. rewrite <- E2. exact E1.
Qed.

End Trim.

Lemma starts_with_iff (pat s : jsstring) :
  starts_with pat s = true <-> exists post, s = pat ++ post.
Proof.
  revert s. induction pat as [|p pat IH]; intro s.
  - simpl. split; [intros _; now exists s|reflexivity].
  - destruct s as [|c s]; simpl.
    + split; [discriminate|intros [post E]; discriminate E].
    + rewrite andb_true_iff, N.eqb_eq, IH. split.
      * intros [-> [post ->]]. now exists post.
      * intros [post [= -> ->]]. split; [reflexivity|now exists post].
Qed.

Lemma starts_with_app (pat s rest : jsstring) :
  starts_with pat s = true -> starts_with pat (s ++ rest) = true.
Proof.
  rewrite !starts_with_iff. intros [post ->].
  exists (post ++ rest). now rewrite app_assoc.
Qed.

Lemma includes_unfold (s pat : jsstring) :
  includes s pat
  = starts_with pat s || match s with [] => false | _ :: s' => includes s' pat end.
Proof. now destruct s. Qed.

Lemma includes_iff (s pat : jsstring) :
  includes s pat = true <-> exists pre post, s = pre ++ pat ++ post.
Proof.
  split.
  - induction s as [|c s IH]; rewrite includes_unfold, orb_true_iff.
    + intros [H|H]; [|discriminate].
      apply starts_with_iff in H. destruct H as [post ->]. now exists [], post.
    + intros [H|H].
      * apply starts_with_iff in H. destruct H as [post ->]. now exists [], post.
      * destruct (IH H) as (pre & post & ->). now exists (c :: pre), post.
  - intros (pre & post & ->).
    induction pre as [|a pre IH]; rewrite includes_unfold, orb_true_iff.
    + left. apply starts_with_iff. now exists post.
    + right. exact IH.
Qed.

(** *** The first piece of a split *)

Lemma split_from_first (sep : jsstring) (s : jsstring) :
  forall acc, exists tail,
    split_from sep acc s 0 = (rev acc ++ before_first sep s) :: tail.
Proof.
  induction s as [|c s IH]; intro acc.
  - exists []. simpl. now rewrite app_nil_r.
  - cbn [split_from before_first].
    destruct (starts_with sep (c :: s)).
    + eexists. now rewrite app_nil_r.
    + destruct (IH (c :: acc)) as [tail ->].
      exists tail. simpl. now rewrite <- app_assoc.
Qed.

Lemma before_first_split (sep s : jsstring) :
  exists rest,
    s = before_first sep s ++ rest
    /\ (rest = [] \/ starts_with sep rest = true).
Proof.
  induction s as [|c s (rest & E & Hr)].
  - exists []. split; [reflexivity|now left].
  - cbn [before_first]. destruct (starts_with sep (c :: s)) eqn:Hs.
    + exists (c :: s). split; [reflexivity|now right].
    + exists rest. split; [simpl; congruence|exact Hr].
Qed.

Lemma before_first_free (sep s : jsstring) :
  sep <> [] -> includes (before_first sep s) sep = false.
Proof.
  intro Hsep. induction s as [|c s IH].
  - simpl. destruct sep; [congruence|reflexivity].
  - cbn [before_first]. destruct (starts_with sep (c :: s)) eqn:Hs.
    + simpl. destruct sep; [congruence|reflexivity].
    + rewrite includes_unfold, IH, orb_false_r.
      destruct (starts_with sep (c :: before_first sep s)) eqn:Hb; [|reflexivity].
      destruct (before_first_split sep s) as (rest & E & _).
      apply (starts_with_app _ _ rest) in Hb.
      simpl app in Hb. rewrite <- E in Hb. congruence.
Qed.

(** *** The regular expression on the address *)

Lemma take_non_slash_split (s : jsstring) :
  exists post,
    s = take_non_slash s ++ post
    /\ (forall c, In c (take_non_slash s) -> c <> 0x2F)
    /\ (post = [] \/ exists post', post = 0x2F :: post').
Proof.
  induction s as [|c s (post & E & Hs & Hp)].
  - exists []. repeat split; [intros c []|now left].
  - simpl. destruct (N.eqb_spec c 0x2F) as [->|Hc].
    + exists (0x2F :: s). repeat split; [intros c []|right; now exists s].
    + exists post. repeat split; [simpl; congruence| |exact Hp].
      intros x [<-|Hx]; [exact Hc|now apply Hs].
Qed.

Lemma place_regexp_at_sound (s full segment : jsstring) :
  place_regexp_at s = Some (full, segment) ->
  exists post,
    s = js "/place/" ++ segment ++ post
    /\ full = js "/place/" ++ segment
    /\ (forall c, In c segment -> c <> 0x2F)
    /\ (post = [] \/ exists post', post = 0x2F :: post').
Proof.
  unfold place_regexp_at.
  destruct (starts_with (js "/place/") s) eqn:Hs; [|discriminate].
  apply starts_with_iff in Hs. destruct Hs as [r ->].
  change (skipn 7 (js "/place/" ++ r)) with r.
  destruct (take_non_slash_split r) as (post & E & Hfree & Hp).
  destruct (take_non_slash r) as [|c seg] eqn:Ht; [discriminate|].
  intros [= <- <-].
  exists post. repeat split; auto. now rewrite <- E.
Qed.

Lemma match_place_sound (url : jsstring) :
  forall full segment,
    match_place url = Some (full, segment) ->
    exists pre post,
      url = pre ++ js "/place/" ++ segment ++ post
      /\ full = js "/place/" ++ segment
      /\ (forall c, In c segment -> c <> 0x2F)
      /\ (post = [] \/ exists post', post = 0x2F :: post').
Proof.
  induction url as [|a url IH]; intros full segment; simpl.
  - discriminate.
  - destruct (place_regexp_at (a :: url)) as [[f g]|] eqn:E.
    + intros [= <- <-].
      destruct (place_regexp_at_sound _ _ _ E) as (post & Hs & Hf & Hfree & Hp).
      exists [], post. auto.
    + intro H. destruct (IH _ _ H) as (pre & post & -> & Hf & Hfree & Hp).
      exists (a :: pre), post. auto.
Qed.

Lemma match_place_complete (pre : jsstring) c post :
  c <> 0x2F -> match_place (pre ++ js "/place/" ++ c :: post) <> None.
Proof.
  intro Hc. induction pre as [|a pre IH].
  - cbn -[take_non_slash]. unfold place_regexp_at. cbn -[take_non_slash].
    simpl take_non_slash.
    destruct (N.eqb_spec c 0x2F) as [E|_]; [contradiction|discriminate].
  - change ((a :: pre) ++ js "/place/" ++ c :: post)
      with (a :: (pre ++ js "/place/" ++ c :: post)).
    cbn [match_place].
    destruct (place_regexp_at (a :: (pre ++ js "/place/" ++ c :: post)));
      [discriminate|exact IH].
Qed.

(** *** decodeURIComponent never lengthens *)

Lemma read_escape_exact s B rest :
  read_escape s = Some (B, rest) -> List.length s = (3 + List.length rest)%nat.
Proof.
  destruct s as [|p [|h [|l r]]]; simpl; try discriminate.
  destruct (p =? 0x25); try discriminate.
  destruct (ParseHexOctet h l); try discriminate.
  intros [= _ <-]. reflexivity.
Qed.

Lemma decode_step_budget C s piece rest :
  decode_step C s = Some (piece, rest) ->
  (List.length piece + List.length rest <= S (List.length s))%nat.
Proof.
  unfold decode_step.
  destruct (C =? 0x25).
  - destruct (read_escape (C :: s)) as [[B r]|] eqn:He; try discriminate.
    apply read_escape_exact in He. simpl in He.
    destruct (leading_ones B) as [|[|[|[|[|n]]]]]; try discriminate;
      try (intros [= <- <-]; unfold jsstring, code_unit in *; simpl; lia);
      (destruct (read_continuations _ r) as [[conts r']|] eqn:Hc; try discriminate;
       destruct (utf8_code_point (B :: conts)) as [V|]; try discriminate;
       intros [= <- <-]; apply read_continuations_shorter in Hc;
       unfold UTF16EncodeCodePoint; destruct (V <=? 0xFFFF);
       unfold jsstring, code_unit in *; simpl; lia).
  - intros [= <- <-]. simpl. lia.
Qed.

Lemma Decode_length b :
  forall s decoded,
    Decode b s = Some decoded -> (List.length decoded <= List.length s)%nat.
Proof.
  induction b as [|b IH]; intros s decoded.
  - destruct s; simpl; [intros [= <-]; simpl; lia|discriminate].
  - destruct s as [|C s]; simpl; [intros [= <-]; simpl; lia|].
    destruct (decode_step C s) as [[piece rest]|] eqn:Hs; [|discriminate].
    destruct (Decode b rest) as [R|] eqn:HR; [|discriminate].
    intros [= <-]. apply IH in HR. apply decode_step_budget in Hs.
    rewrite length_app. unfold jsstring, code_unit in *. simpl. lia.
Qed.

Lemma replace_plus_length (s : jsstring) :
  List.length (replace_plus_with_space s) = List.length s.
Proof. induction s as [|c s IH]; simpl; congruence. Qed.

Lemma replace_plus_free (s : jsstring) c :
  In c (replace_plus_with_space s) -> c <> 0x2B.
Proof.
  unfold replace_plus_with_space. rewrite in_map_iff.
  intros (x & <- & _). destruct (N.eqb_spec x 0x2B); [discriminate|assumption].
Qed.

(** ** Further properties of getRestaurantNameOnly *)

Lemma passes_filter_true (name : jsstring) :
  passes_filter name = true ->
  name <> [] /\ (2 < List.length name < 100)%nat
  /\ includes name (js "Google Maps") = false
  /\ includes name (js "Directions") = false
  /\ includes name (js "Reviews") = false.
Proof.
  unfold passes_filter. rewrite !andb_true_iff, !negb_true_iff.
  intros [[[[[Ht Hg] Hd] Hr] H2] H100].
  apply Nat.ltb_lt in H2. apply Nat.ltb_lt in H100.
  repeat split; auto. intros ->. discriminate Ht.
Qed.

Lemma split_first_piece (t sep : jsstring) :
  nth_error (split t sep) 0 = Some (before_first sep t).
Proof.
  unfold split. destruct (split_from_first sep t []) as [tail ->]. reflexivity.
Qed.

Lemma includes_trim (p sep : jsstring) :
  includes p sep = false -> includes (trim p) sep = false.
Proof.
  intro H. destruct (includes (trim p) sep) eqn:Hi; [|reflexivity].
  apply includes_iff in Hi. destruct Hi as (pre & post & Hi).
  destruct (trim_split p) as (lead & trail & E & _).
  assert (Hp : includes p sep = true).
  { apply includes_iff. exists (lead ++ pre), (post ++ trail).
    rewrite E, Hi. now rewrite <- !app_assoc. }
  congruence.
Qed.

(** Every call ends in one of the three stages, with what the stage knows
    about the value. *)
Lemma resolve_shape (w : World) :
  (exists selector el,
      In selector nameSelectors
      /\ querySelector (document (window w)) selector = Some el
      /\ passes_filter (trim (textContent el)) = true
      /\ resolve w = Returned (JSString (trim (textContent el))))
  \/ (no_valid_structural_match (document (window w))
      /\ truthy (title (document (window w))) = true
      /\ includes (title (document (window w))) (js "Google Maps") = false
      /\ exists part,
           nth_error (split (title (document (window w))) (js " - ")) 0 = Some part
           /\ truthy part && (2 <? List.length (trim part))%nat = true
           /\ resolve w = Returned (JSString (trim part)))
  \/ (no_valid_structural_match (document (window w))
      /\ title_yields_nothing (title (document (window w)))
      /\ resolve w = address_outcome (href (location (window w)))).
Proof.
  destruct (selector_cases (window w) nameSelectors)
    as [H1|(pre & selector & post & el & Hs & Hpre & Hq & Hok)].
  - right.
    destruct (title_cases (window w)) as [H2|(part & Ht & Hi & Hp & Hlen)].
    + right. repeat split; auto. now apply resolve_stage3.
    + left. repeat split; auto. exists part. repeat split; auto.
      now apply resolve_stage2.
  - left. exists selector, el. repeat split; auto.
    + rewrite Hs. apply in_or_app. right. now left.
    + eapply resolve_stage1; eauto.
Qed.

Lemma address_outcome_string (url s : jsstring) :
  address_outcome url = Returned (JSString s) ->
  exists full segment decoded,
    match_place url = Some (full, segment)
    /\ decodeURIComponent segment = Some decoded
    /\ s = replace_plus_with_space decoded.
Proof.
  unfold address_outcome.
  destruct (match_place url) as [[full segment]|]; [|discriminate].
  destruct (decodeURIComponent segment) as [decoded|] eqn:Hd; [|discriminate].
  intros [= <-]. eauto 6.
Qed.

(** X1.  A name that the call returns is trimmed and has more than two
    code units, unless it was taken from the address: then it is the
    decoded /place/ piece with '+' turned into spaces, as it stands. *)
Theorem X1_names_are_trimmed (w : World) (s : jsstring) :
  resolve w = Returned (JSString s) ->
  (trim s = s /\ (2 < List.length s)%nat)
  \/ (no_valid_structural_match (document (window w))
      /\ title_yields_nothing (title (document (window w)))
      /\ exists full segment decoded,
           match_place (href (location (window w))) = Some (full, segment)
           /\ decodeURIComponent segment = Some decoded
           /\ s = replace_plus_with_space decoded).
Proof.
  intro Hr.
  destruct (resolve_shape w)
    as [(selector & el & _ & _ & Hok & Hs)
       |[(_ & _ & _ & part & _ & Hlen & Hs)|(H1 & H2 & Hs)]].
  - left. rewrite Hs in Hr. injection Hr as <-.
    split; [apply trim_idempotent|].
    now destruct (passes_filter_true _ Hok) as (_ & [H2 _] & _).
  - left. rewrite Hs in Hr. injection Hr as <-.
    split; [apply trim_idempotent|].
    apply andb_true_iff in Hlen. destruct Hlen as [_ Hlen].
    now apply Nat.ltb_lt in Hlen.
  - right. rewrite Hs in Hr. repeat split; auto.
    now apply address_outcome_string.
Qed.

Lemma X1_trimmed_witness :
  (trim (js "Trattoria Roma") = js "Trattoria Roma"
   /\ (2 < List.length (js "Trattoria Roma"))%nat)
  \/ (no_valid_structural_match
        (document (window (page_with [(js "h1", js "  Trattoria Roma ")]
                                     (js "Google Maps")
                                     (js "https://www.google.com/maps"))))
      /\ title_yields_nothing (js "Google Maps")
      /\ exists full segment decoded,
           match_place (js "https://www.google.com/maps") = Some (full, segment)
           /\ decodeURIComponent segment = Some decoded
           /\ js "Trattoria Roma" = replace_plus_with_space decoded).
Proof.
  apply (X1_names_are_trimmed
           (page_with [(js "h1", js "  Trattoria Roma ")]
                      (js "Google Maps") (js "https://www.google.com/maps"))
           (js "Trattoria Roma")).
  vm_compute. reflexivity.
Defined.

(** What a call can give: the exception, null, or a string that is not
    empty. *)
Lemma resolve_value_cases (w : World) :
  resolve w = Thrown URIError
  \/ resolve w = Returned JSNull
  \/ exists s, s <> [] /\ resolve w = Returned (JSString s).
Proof.
  destruct (resolve_shape w)
    as [(selector & el & _ & _ & Hok & Hs)
       |[(_ & _ & _ & part & _ & Hlen & Hs)|(H1 & H2 & Hs)]]; rewrite Hs.
  - right. right. exists (trim (textContent el)). split; [|reflexivity].
    now destruct (passes_filter_true _ Hok) as (Hne & _).
  - right. right. exists (trim part). split; [|reflexivity].
    apply andb_true_iff in Hlen. destruct Hlen as [_ Hlen].
    apply Nat.ltb_lt in Hlen.
    intro E. rewrite E in Hlen. simpl in Hlen. lia.
  - destruct (address_outcome_cases (href (location (window w))))
      as [E|[[s E]|[E _]]]; rewrite E; auto.
    right. right. exists s. split; [|reflexivity].
    destruct (address_outcome_string _ _ E) as (full & segment & decoded & Hm & Hd & ->).
    pose proof (match_place_nonempty _ _ _ Hm) as Hne.
    exact (replace_plus_nonempty _ (decodeURIComponent_nonempty _ _ Hd Hne)).
Qed.

(** X2.  A call never returns undefined and never returns the empty
    string: what it returns is null or a string with at least one code
    unit. *)
Theorem X2_never_empty_nor_undefined (w : World) :
  resolve w <> Returned JSUndefined
  /\ resolve w <> Returned (JSString []).
Proof.
  destruct (resolve_value_cases w) as [E|[E|(s & Hne & E)]]; rewrite E.
  - split; discriminate.
  - split; discriminate.
  - split; [discriminate|].
    intros [= ->]. now apply Hne.
Qed.

(** X3.  On a page where no selector has a valid match and whose title is
    not empty and does not contain "Google Maps", the title stage looks at
    the text of the title before its first " - " (all of the title when
    there is none), trimmed: with more than two code units it is the value
    of the call, otherwise the call goes on to the address stage.  That
    text contains no " - ". *)
Theorem X3_title_name_is_text_before_separator (w : World) :
  no_valid_structural_match (document (window w)) ->
  truthy (title (document (window w))) = true ->
  includes (title (document (window w))) (js "Google Maps") = false ->
  let part := before_first (js " - ") (title (document (window w))) in
  resolve w
  = (if (2 <? List.length (trim part))%nat
     then Returned (JSString (trim part))
     else address_outcome (href (location (window w))))
  /\ (exists rest,
        title (document (window w)) = part ++ rest
        /\ (rest = [] \/ starts_with (js " - ") rest = true))
  /\ includes part (js " - ") = false
  /\ includes (trim part) (js " - ") = false.
Proof.
  intros H1 Ht Hi part.
  assert (Hfree : includes part (js " - ") = false).
  { apply before_first_free. discriminate. }
  repeat split.
  - pose proof (split_first_piece (title (document (window w))) (js " - ")) as Hp.
    fold part in Hp.
    destruct (2 <? List.length (trim part))%nat eqn:Hlen.
    + apply resolve_stage2; auto.
      rewrite Hlen, andb_true_r.
      destruct part; [discriminate Hlen|reflexivity].
    + apply resolve_stage3; auto.
      right. right. intros p Hp'. rewrite Hp in Hp'. injection Hp' as <-.
      rewrite Hlen. apply andb_false_r.
  - apply before_first_split.
  - exact Hfree.
  - now apply includes_trim.
Qed.

Lemma X3_title_witness :
  resolve (blank_page (js "Luigi's Pizzeria - Brooklyn - Maps")
                      (js "https://www.google.com/maps"))
  = Returned (JSString (js "Luigi's Pizzeria")).
Proof.
  refine (proj1 (X3_title_name_is_text_before_separator
                   (blank_page (js "Luigi's Pizzeria - Brooklyn - Maps")
                               (js "https://www.google.com/maps")) _ _ _)).
  - intros s _ el Hq. discriminate Hq.
  - reflexivity.
  - vm_compute. reflexivity.
Defined.

(** X4.  When the call takes its value from the address, the piece it
    decodes stands in the address right behind a "/place/", contains no
    '/', and ends at the next '/' or at the end of the address; the name
    returned is the decoding of that piece with '+' turned into spaces, so
    it has no '+' and is not longer than the piece. *)
Theorem X4_address_name_shape (w : World) (full segment s : jsstring) :
  no_valid_structural_match (document (window w)) ->
  title_yields_nothing (title (document (window w))) ->
  match_place (href (location (window w))) = Some (full, segment) ->
  resolve w = Returned (JSString s) ->
  (exists pre post,
      href (location (window w)) = pre ++ js "/place/" ++ segment ++ post
      /\ (post = [] \/ exists post', post = 0x2F :: post'))
  /\ (forall c, In c segment -> c <> 0x2F)
  /\ (exists decoded,
        decodeURIComponent segment = Some decoded
        /\ s = replace_plus_with_space decoded)
  /\ (forall c, In c s -> c <> 0x2B)
  /\ (List.length s <= List.length segment)%nat.
Proof.
  intros H1 H2 Hm Hr.
  destruct (resolve_stage3 w H1 H2) as [Ha _].
  rewrite Ha in Hr.
  destruct (address_outcome_string _ _ Hr) as (full' & segment' & decoded & Hm' & Hd & ->).
  rewrite Hm in Hm'. injection Hm' as <- <-.
  destruct (match_place_sound _ _ _ Hm) as (pre & post & E & _ & Hfree & Hp).
  split; [now exists pre, post|].
  split; [exact Hfree|].
  split; [now exists decoded|].
  split; [intros c; apply replace_plus_free|].
  rewrite replace_plus_length. apply (Decode_length _ _ _ Hd).
Qed.

Lemma X4_address_witness :
  (exists pre post,
      js "https://www.google.com/maps/place/C%2B%2B+Cafe/@40.7,-74.0"
      = pre ++ js "/place/" ++ js "C%2B%2B+Cafe" ++ post
      /\ (post = [] \/ exists post', post = 0x2F :: post'))
  /\ (forall c, In c (js "C%2B%2B+Cafe") -> c <> 0x2F)
  /\ (exists decoded,
        decodeURIComponent (js "C%2B%2B+Cafe") = Some decoded
        /\ js "C   Cafe" = replace_plus_with_space decoded)
  /\ (forall c, In c (js "C   Cafe") -> c <> 0x2B)
  /\ (List.length (js "C   Cafe") <= List.length (js "C%2B%2B+Cafe"))%nat.
Proof.
  apply (X4_address_name_shape
           (blank_page (js "Google Maps")
                       (js "https://www.google.com/maps/place/C%2B%2B+Cafe/@40.7,-74.0"))
           (js "/place/C%2B%2B+Cafe")).
  - intros sel _ el Hq. discriminate Hq.
  - right. left. vm_compute. reflexivity.
  - vm_compute. reflexivity.
  - vm_compute. reflexivity.
Defined.

(** X5.  When neither the selectors nor the title give a name, the call
    returns null exactly when no "/place/" in the address is followed by a
    code unit other than '/'. *)
Theorem X5_null_iff_no_place_piece (w : World) :
  no_valid_structural_match (document (window w)) ->
  title_yields_nothing (title (document (window w))) ->
  (resolve w = Returned JSNull
   <-> forall pre c post,
         href (location (window w)) = pre ++ js "/place/" ++ c :: post -> c = 0x2F).
Proof.
  intros H1 H2.
  destruct (resolve_stage3 w H1 H2) as [-> _].
  split.
  - intros Hnull pre c post E.
    destruct (N.eq_dec c 0x2F) as [Hc|Hc]; [exact Hc|exfalso].
    assert (Hsome : match_place (href (location (window w))) <> None).
    { rewrite E. now apply match_place_complete. }
    apply Hsome.
    unfold address_outcome in Hnull.
    destruct (match_place (href (location (window w)))) as [[full segment]|];
      [|reflexivity].
    destruct (decodeURIComponent segment); discriminate Hnull.
  - intro Hnone. unfold address_outcome.
    destruct (match_place (href (location (window w)))) as [[full segment]|] eqn:Hm;
      [exfalso|reflexivity].
    destruct (match_place_sound _ _ _ Hm) as (pre & post & E & _ & Hfree & _).
    pose proof (match_place_nonempty _ _ _ Hm) as Hne.
    destruct segment as [|c segment]; [congruence|].
    apply (Hfree c (or_introl eq_refl)).
    apply (Hnone pre c (segment ++ post)). exact E.
Qed.

(** In .../place// nothing but '/' follows "/place/". *)
Lemma X5_null_witness :
  resolve (blank_page (js "Google Maps") (js "https://www.google.com/maps/place//"))
  = Returned JSNull
  <-> (forall pre c post,
         js "https://www.google.com/maps/place//" = pre ++ js "/place/" ++ c :: post ->
         c = 0x2F).
Proof.
  apply (X5_null_iff_no_place_piece
           (blank_page (js "Google Maps") (js "https://www.google.com/maps/place//"))).
  - intros s _ el Hq. discriminate Hq.
  - right. left. vm_compute. reflexivity.
Defined.

(** ** popup.js: isGoogleMapsPage and getRestaurantDataFromPage *)

(** X6.  isGoogleMapsPage accepts an address exactly when "google.com/maps"
    or "maps.google.com" occurs somewhere in it; so an accepted address
    stays accepted with anything written before or after it, wherever the
    marker then stands (host, path or query). *)
Theorem X6_isGoogleMapsPage_is_a_substring_test (url : jsstring) :
  (isGoogleMapsPage url = true
   <-> exists pre post,
         url = pre ++ js "google.com/maps" ++ post
         \/ url = pre ++ js "maps.google.com" ++ post)
  /\ (isGoogleMapsPage url = true ->
      forall before after, isGoogleMapsPage (before ++ url ++ after) = true).
Proof.
  assert (Hiff : forall u,
             isGoogleMapsPage u = true
             <-> exists pre post,
                   u = pre ++ js "google.com/maps" ++ post
                   \/ u = pre ++ js "maps.google.com" ++ post).
  { intro u. unfold isGoogleMapsPage. rewrite orb_true_iff, !includes_iff. split.
    - intros [(pre & post & E)|(pre & post & E)]; exists pre, post; auto.
    - intros (pre & post & [E|E]); [left|right]; now exists pre, post. }
  split; [apply Hiff|].
  intros H before after. apply Hiff. apply Hiff in H.
  destruct H as (pre & post & [-> | ->]);
    exists (before ++ pre), (post ++ after); [left|right];
    now rewrite <- !app_assoc.
Qed.

Lemma X6_query_string_witness :
  isGoogleMapsPage (js "https://example.org/?next=" ++ js "maps.google.com" ++ js "&x=1")
  = true.
Proof.
  apply (proj2 (X6_isGoogleMapsPage_is_a_substring_test (js "maps.google.com"))).
  vm_compute. reflexivity.
Defined.

Lemma truthy_false_iff (s : jsstring) : truthy s = false <-> s = [].
Proof. destruct s; simpl; split; congruence. Qed.

(** The first-text loop gives the empty string exactly when every selector
    finds nothing or blank text; otherwise it gives the trimmed text of the
    first selector whose element has text. *)
Lemma first_text_nil (d : Document) (selectors : list jsstring) :
  first_text d selectors = []
  <-> forall selector el,
        In selector selectors -> querySelector d selector = Some el ->
        trim (textContent el) = [].
Proof.
  induction selectors as [|s rest IH]; simpl.
  - split; [intros _ ? ? []|reflexivity].
  - destruct (querySelector d s) as [e|] eqn:Hq.
    + destruct (truthy (trim (textContent e))) eqn:Ht.
      * split.
        -- intro E. rewrite E in Ht. discriminate Ht.
        -- intro H. rewrite (H s e (or_introl eq_refl) Hq) in Ht. discriminate Ht.
      * apply truthy_false_iff in Ht. rewrite IH. split.
        -- intros H sel el [<-|Hin] Hsel; [congruence|eauto].
        -- intros H sel el Hin Hsel. eauto.
    + rewrite IH. split.
      * intros H sel el [<-|Hin] Hsel; [congruence|eauto].
      * intros H sel el Hin Hsel. eauto.
Qed.

Lemma first_text_found (d : Document) (selectors : list jsstring) :
  first_text d selectors <> [] ->
  exists pre selector post el,
    selectors = pre ++ selector :: post
    /\ (forall s e, In s pre -> querySelector d s = Some e -> trim (textContent e) = [])
    /\ querySelector d selector = Some el
    /\ first_text d selectors = trim (textContent el).
Proof.
  induction selectors as [|s rest IH]; simpl; [congruence|].
  destruct (querySelector d s) as [e|] eqn:Hq.
  - destruct (truthy (trim (textContent e))) eqn:Ht.
    + intros _. exists [], s, rest, e. repeat split; auto. intros ? ? [].
    + apply truthy_false_iff in Ht. intro H.
      destruct (IH H) as (pre & sel & post & el & -> & Hpre & Hsel & E).
      exists (s :: pre), sel, post, el. repeat split; auto.
      intros s' e' [<-|Hin] Hs'; [congruence|eauto].
  - intro H.
    destruct (IH H) as (pre & sel & post & el & -> & Hpre & Hsel & E).
    exists (s :: pre), sel, post, el. repeat split; auto.
    intros s' e' [<-|Hin] Hs'; [congruence|eauto].
Qed.

(** The regular expression /[class]+/: what it matches is a non-empty run
    of the class, with no code unit of the class before it and none right
    after it. *)
Lemma take_run_split (class : code_unit -> bool) (s : jsstring) :
  exists post,
    s = take_run class s ++ post
    /\ (forall c, In c (take_run class s) -> class c = true)
    /\ (post = [] \/ exists c post', post = c :: post' /\ class c = false).
Proof.
  induction s as [|c s (post & E & Hall & Hp)].
  - exists []. repeat split; [intros c []|now left].
  - simpl. destruct (class c) eqn:Hc.
    + exists post. repeat split; [simpl; congruence| |exact Hp].
      intros x [<-|Hx]; [exact Hc|now apply Hall].
    + exists (c :: s). repeat split; [intros x []|right; now exists c, s].
Qed.

Lemma match_run_sound (class : code_unit -> bool) (s whole : jsstring) :
  match_run class s = Some whole ->
  whole <> []
  /\ (forall c, In c whole -> class c = true)
  /\ exists pre post,
       s = pre ++ whole ++ post
       /\ (forall c, In c pre -> class c = false)
       /\ (post = [] \/ exists c post', post = c :: post' /\ class c = false).
Proof.
  revert whole. induction s as [|a s IH]; intro whole; simpl; [discriminate|].
  destruct (class a) eqn:Ha.
  - intros [= <-].
    destruct (take_run_split class s) as (post & E & Hall & Hp).
    split; [discriminate|].
    split; [intros c [<-|Hc]; [exact Ha|now apply Hall]|].
    exists [], post. repeat split; [simpl; congruence|intros c []|exact Hp].
  - intro H. destruct (IH whole H) as (Hne & Hall & pre & post & -> & Hpre & Hp).
    repeat split; auto.
    exists (a :: pre), post. repeat split; auto.
    intros c [<-|Hc]; [exact Ha|now apply Hpre].
Qed.

Lemma first_run_shape (class : code_unit -> bool) (d : Document)
    (selectors : list jsstring) :
  first_run class d selectors = []
  \/ exists selector el,
       In selector selectors
       /\ querySelector d selector = Some el
       /\ match_run class (textContent el) = Some (first_run class d selectors).
Proof.
  induction selectors as [|s rest IH]; simpl; [now left|].
  assert (Hrest : first_run class d rest = []
                  \/ exists selector el,
                       In selector (s :: rest)
                       /\ querySelector d selector = Some el
                       /\ match_run class (textContent el)
                          = Some (first_run class d rest)).
  { destruct IH as [E|(sel & el & Hin & Hq & Hm)]; [now left|].
    right. exists sel, el. repeat split; auto. now right. }
  destruct (querySelector d s) as [e|] eqn:Hq; [|exact Hrest].
  destruct (truthy (trim (textContent e))); [|exact Hrest].
  destruct (match_run class (textContent e)) as [whole|] eqn:Hm; [|exact Hrest].
  right. exists s, e. split; [now left|]. split; [exact Hq|exact Hm].
Qed.

Lemma first_run_class (class : code_unit -> bool) (d : Document)
    (selectors : list jsstring) :
  forall c, In c (first_run class d selectors) -> class c = true.
Proof.
  destruct (first_run_shape class d selectors) as [-> | (sel & el & _ & _ & Hm)].
  - intros c [].
  - now destruct (match_run_sound _ _ _ Hm) as (_ & Hall & _).
Qed.

(** X7.  getRestaurantDataFromPage returns null exactly when none of its
    four name selectors finds an element with text other than blanks,
    whatever the rating selectors find. *)
Theorem X7_page_data_null_iff_no_name (win : Window) :
  getRestaurantDataFromPage win = None
  <-> forall selector el,
        In selector popup_nameSelectors ->
        querySelector (document win) selector = Some el ->
        trim (textContent el) = [].
Proof.
  unfold getRestaurantDataFromPage.
  rewrite <- first_text_nil.
  destruct (first_text (document win) popup_nameSelectors); simpl.
  - split; reflexivity.
  - split; discriminate.
Qed.

Lemma X7_rating_only_witness :
  getRestaurantDataFromPage
    (window (page_with [(js ".ceNzKf", js "4.5"); (js "h1", js "   ")]
                       (js "Google Maps") (js "https://www.google.com/maps")))
  = None.
Proof.
  apply (proj2 (X7_page_data_null_iff_no_name
                  (window (page_with [(js ".ceNzKf", js "4.5"); (js "h1", js "   ")]
                                     (js "Google Maps")
                                     (js "https://www.google.com/maps"))))).
  intros selector el Hin. revert el. revert selector Hin.
  walk_selectors
    ltac:(let el := fresh "el" in
          let Hq := fresh "Hq" in
          intros el Hq; vm_compute in Hq;
          first [discriminate Hq | injection Hq as <-; vm_compute; reflexivity]).
Defined.

(** X8.  When getRestaurantDataFromPage returns a record, its name is the
    trimmed, non-empty text of the first name selector whose element has
    text, and its rating is either "N/A" or a non-empty run of digits and
    dots that the expression /[\d.]+/ finds in the text of an element of a
    rating selector. *)
Theorem X8_page_data_shape (win : Window) (data : PageData.t) :
  getRestaurantDataFromPage win = Some data ->
  (exists pre selector post el,
      popup_nameSelectors = pre ++ selector :: post
      /\ (forall s e, In s pre -> querySelector (document win) s = Some e ->
                      trim (textContent e) = [])
      /\ querySelector (document win) selector = Some el
      /\ PageData.name data = trim (textContent el))
  /\ PageData.name data <> []
  /\ trim (PageData.name data) = PageData.name data
  /\ (PageData.rating data = js "N/A"
      \/ (PageData.rating data <> []
          /\ (forall c, In c (PageData.rating data) -> digit_or_dot c = true)
          /\ exists selector el,
               In selector popup_ratingSelectors
               /\ querySelector (document win) selector = Some el
               /\ match_run digit_or_dot (textContent el)
                  = Some (PageData.rating data))).
Proof.
  unfold getRestaurantDataFromPage. cbv zeta.
  pose proof (first_run_shape digit_or_dot (document win) popup_ratingSelectors)
    as Hshape.
  remember (first_run digit_or_dot (document win) popup_ratingSelectors)
    as rating eqn:Hrating.
  clear Hrating.
  destruct (first_text (document win) popup_nameSelectors) as [|c name] eqn:Hname;
    [discriminate|].
  change (truthy (c :: name)) with true. cbv iota.
  intros [= <-]. cbn [PageData.name PageData.rating].
  assert (Hne : first_text (document win) popup_nameSelectors <> []).
  { rewrite Hname. discriminate. }
  destruct (first_text_found _ _ Hne) as (pre & sel & post & el & Hs & Hpre & Hq & E).
  rewrite Hname in E.
  split; [exists pre, sel, post, el; auto|].
  split; [discriminate|].
  split; [rewrite E; apply trim_idempotent|].
  destruct Hshape as [-> | (rsel & rel & Hin & Hrq & Hm)].
  - left. reflexivity.
  - destruct (match_run_sound _ _ _ Hm) as (Hrne & Hall & _).
    destruct rating as [|r rating]; [congruence|].
    right. change (truthy (r :: rating)) with true. cbv iota.
    split; [discriminate|]. split; [exact Hall|].
    exists rsel, rel. auto.
Qed.

Lemma X8_page_data_witness :
  PageData.name {| PageData.name := js "Trattoria Roma"; PageData.rating := js "4.5" |}
  <> [].
Proof.
  refine (proj1 (proj2 (X8_page_data_shape
           (window (page_with [(js "h1", js " Trattoria Roma ");
                               (js ".ceNzKf", js "Rated 4.5 stars")]
                              (js "Google Maps") (js "https://www.google.com/maps")))
           {| PageData.name := js "Trattoria Roma"; PageData.rating := js "4.5" |} _))).
  vm_compute. reflexivity.
Defined.

(** ** content.js: extractRestaurantData *)

Lemma first_text_skip (d : Document) (pre : list jsstring) selector post :
  (forall el, querySelector d selector = Some el -> trim (textContent el) = []) ->
  first_text d (pre ++ selector :: post) = first_text d (pre ++ post).
Proof.
  intro Hblank. induction pre as [|s pre IH]; simpl.
  - destruct (querySelector d selector) as [el|]; [|reflexivity].
    now rewrite (Hblank el eq_refl).
  - now rewrite IH.
Qed.

(** X9.  The record of extractRestaurantData never has an empty name or an
    empty rating (the defaults "Unknown Restaurant" and "N/A" stand in),
    its name is trimmed, its rating other than "N/A" is made of digits and
    dots, and its review count is made of digits and commas only. *)
Theorem X9_extracted_record_fields (win : Window) (now : jsstring) :
  let data := fst (extractRestaurantData win now) in
  RestaurantData.name data <> []
  /\ trim (RestaurantData.name data) = RestaurantData.name data
  /\ RestaurantData.rating data <> []
  /\ (RestaurantData.rating data = js "N/A"
      \/ forall c, In c (RestaurantData.rating data) -> digit_or_dot c = true)
  /\ (forall c, In c (RestaurantData.reviewCount data) -> digit_or_comma c = true)
  /\ trim (RestaurantData.address data) = RestaurantData.address data
  /\ snd (extractRestaurantData win now)
     = [LogData (js "Extracted restaurant data:") data].
Proof.
  unfold extractRestaurantData. cbv zeta.
  cbn [fst snd RestaurantData.name RestaurantData.rating RestaurantData.address
       RestaurantData.reviewCount].
  pose proof (first_run_class digit_or_dot (document win) content_ratingSelectors)
    as Hrating.
  pose proof (first_run_class digit_or_comma (document win) content_reviewSelectors)
    as Hreview.
  remember (first_run digit_or_dot (document win) content_ratingSelectors) as rating.
  remember (first_run digit_or_comma (document win) content_reviewSelectors) as reviews.
  assert (Hname : first_text (document win) content_nameSelectors = []
                  \/ exists el, first_text (document win) content_nameSelectors
                                = trim (textContent el)).
  { destruct (first_text (document win) content_nameSelectors) eqn:E; [now left|].
    right. rewrite <- E.
    destruct (first_text_found (document win) content_nameSelectors)
      as (_ & _ & _ & el & _ & _ & _ & Hel); [rewrite E; discriminate|].
    now exists el. }
  assert (Haddress : first_text (document win) content_addressSelectors = []
                     \/ exists el, first_text (document win) content_addressSelectors
                                   = trim (textContent el)).
  { destruct (first_text (document win) content_addressSelectors) eqn:E; [now left|].
    right. rewrite <- E.
    destruct (first_text_found (document win) content_addressSelectors)
      as (_ & _ & _ & el & _ & _ & _ & Hel); [rewrite E; discriminate|].
    now exists el. }
  remember (first_text (document win) content_nameSelectors) as name.
  remember (first_text (document win) content_addressSelectors) as address.
  clear Heqrating Heqreviews Heqname Heqaddress.
  repeat split.
  - destruct name; simpl; discriminate.
  - destruct Hname as [-> | [el ->]].
    + vm_compute. reflexivity.
    + destruct (trim (textContent el)) eqn:E; simpl truthy; cbv iota.
      * vm_compute. reflexivity.
      * rewrite <- E. apply trim_idempotent.
  - destruct rating; simpl; discriminate.
  - destruct rating as [|r rating]; [now left|right; exact Hrating].
  - destruct reviews as [|r reviews]; [intros c []|exact Hreview].
  - destruct Haddress as [-> | [el ->]].
    + reflexivity.
    + destruct (trim (textContent el)) eqn:E; simpl truthy; cbv iota.
      * reflexivity.
      * rewrite <- E. apply trim_idempotent.
Qed.

(** X10.  The two extractors agree on the name whenever the two selectors
    that only content.js tries, "h1.DUwDvf" and ".qrShPb", find no element
    with text: extractRestaurantData then reports the name that
    getRestaurantDataFromPage returns, and "Unknown Restaurant" where that
    one returns null. *)
Theorem X10_extractors_agree_on_name (win : Window) (now : jsstring) :
  (forall el, querySelector (document win) (js "h1.DUwDvf") = Some el ->
              trim (textContent el) = []) ->
  (forall el, querySelector (document win) (js ".qrShPb") = Some el ->
              trim (textContent el) = []) ->
  RestaurantData.name (fst (extractRestaurantData win now))
  = match getRestaurantDataFromPage win with
    | Some data => PageData.name data
    | None => js "Unknown Restaurant"
    end.
Proof.
  intros Hd Hq.
  assert (E : first_text (document win) content_nameSelectors
              = first_text (document win) popup_nameSelectors).
  { change content_nameSelectors
      with (firstn 2 content_nameSelectors
            ++ js "h1.DUwDvf" :: skipn 3 content_nameSelectors).
    rewrite (first_text_skip _ _ _ _ Hd).
    change (firstn 2 content_nameSelectors ++ skipn 3 content_nameSelectors)
      with (popup_nameSelectors ++ js ".qrShPb" :: []).
    rewrite (first_text_skip _ _ _ _ Hq).
    now rewrite app_nil_r. }
  unfold extractRestaurantData, getRestaurantDataFromPage. cbv zeta.
  cbn [fst RestaurantData.name]. rewrite E.
  destruct (first_text (document win) popup_nameSelectors); reflexivity.
Qed.

Lemma X10_agreement_witness :
  RestaurantData.name
    (fst (extractRestaurantData
            (window (page_with [(js "h1", js " Trattoria Roma ")]
                               (js "Google Maps") (js "https://www.google.com/maps")))
            (js "2024-05-01T12:00:00.000Z")))
  = js "Trattoria Roma".
Proof.
  refine (eq_trans (X10_extractors_agree_on_name
                      (window (page_with [(js "h1", js " Trattoria Roma ")]
                                         (js "Google Maps")
                                         (js "https://www.google.com/maps")))
                      (js "2024-05-01T12:00:00.000Z") _ _) _).
  - intros el Hq. vm_compute in Hq. discriminate Hq.
  - intros el Hq. vm_compute in Hq. discriminate Hq.
  - vm_compute. reflexivity.
Defined.

(** ** popup.js: getBasicRestaurantName *)

(** X11.  Whatever way the promise of executeScript settles,
    getBasicRestaurantName gives null or a non-empty string.  And when
    executeScript hands over what the injected function returned as the
    result of the first frame, getBasicRestaurantName gives exactly the
    value that getRestaurantNameOnly returned, with nothing written by
    console.error: the "|| null" never replaces a name. *)
Theorem X11_basic_name_is_resolver_value
    (executeScript : Outcome -> Settled (list InjectionResult)) (w : World) :
  (forall v, executeScript (Returned v) = Fulfilled [{| result := v |}]) ->
  (forall v, resolve w = Returned v ->
             getBasicRestaurantName (executeScript (resolve w)) = (v, []))
  /\ (forall script,
        fst (getBasicRestaurantName script) = JSNull
        \/ exists s, s <> [] /\ fst (getBasicRestaurantName script) = JSString s).
Proof.
  intro Hdeliver. split.
  - intros v Hv. rewrite Hv, Hdeliver.
    destruct (resolve_value_cases w) as [E|[E|(s & Hne & E)]];
      rewrite E in Hv; [discriminate Hv| |]; injection Hv as <-.
    + reflexivity.
    + destruct s; [congruence|reflexivity].
  - intros [[|first rest]|message]; simpl; try (now left).
    destruct (result first) as [| |s]; simpl; try (now left).
    destruct s as [|c s]; simpl; [now left|].
    right. exists (c :: s). split; [discriminate|reflexivity].
Qed.

(** A browser that rejects the promise when the injected function throws:
    the name found in the address comes through unchanged. *)
Lemma X11_basic_name_witness :
  getBasicRestaurantName
    ((fun outcome => match outcome with
                     | Returned v => Fulfilled [{| result := v |}]
                     | Thrown _ => Rejected (js "URI malformed")
                     end)
       (resolve (blank_page (js "Google Maps")
                   (js "https://www.google.com/maps/place/Luigi%27s+Pizzeria/@40.7,-74.0"))))
  = (JSString (js "Luigi's Pizzeria"), []).
Proof.
  refine (proj1 (X11_basic_name_is_resolver_value
                   (fun outcome => match outcome with
                                   | Returned v => Fulfilled [{| result := v |}]
                                   | Thrown _ => Rejected (js "URI malformed")
                                   end)
                   (blank_page (js "Google Maps")
                      (js "https://www.google.com/maps/place/Luigi%27s+Pizzeria/@40.7,-74.0"))
                   _) (JSString (js "Luigi's Pizzeria")) _).
  - intro v. reflexivity.
  - vm_compute. reflexivity.
Defined.

(** ** background.js *)

Lemma jsstring_eqb_true_iff (a b : jsstring) : jsstring_eqb a b = true <-> a = b.
Proof.
  unfold jsstring_eqb. destruct (list_eq_dec N.eq_dec a b); split; congruence.
Qed.

Lemma jsstring_eqb_refl (a : jsstring) : jsstring_eqb a a = true.
Proof. now apply jsstring_eqb_true_iff. Qed.

Lemma jsstring_eqb_neq (a b : jsstring) : a <> b -> jsstring_eqb a b = false.
Proof.
  intro H. destruct (jsstring_eqb a b) eqn:E; [|reflexivity].
  apply jsstring_eqb_true_iff in E. contradiction.
Qed.

Lemma storage_lookup_put_same key v store :
  storage_lookup key (storage_put key v store) = Some v.
Proof.
  induction store as [|[k x] store IH]; simpl.
  - now rewrite jsstring_eqb_refl.
  - destruct (jsstring_eqb k key) eqn:E; simpl.
    + now rewrite jsstring_eqb_refl.
    + now rewrite E.
Qed.

Lemma storage_lookup_put_other key key' v store :
  key <> key' ->
  storage_lookup key' (storage_put key v store) = storage_lookup key' store.
Proof.
  intro Hne. induction store as [|[k x] store IH]; simpl.
  - now rewrite (jsstring_eqb_neq _ _ Hne).
  - destruct (jsstring_eqb k key) eqn:E; simpl.
    + apply jsstring_eqb_true_iff in E. subst k.
      now rewrite (jsstring_eqb_neq _ _ Hne).
    + destruct (jsstring_eqb k key'); [reflexivity|exact IH].
Qed.

Lemma storage_set_untouched items :
  forall store key,
    ~ In key (map fst items) ->
    storage_lookup key (storage_set items store) = storage_lookup key store.
Proof.
  induction items as [|[k v] items IH]; intros store key Hout; [reflexivity|].
  simpl in Hout. unfold storage_set. simpl fold_left.
  fold (storage_set items (storage_put k v store)).
  rewrite IH; [|tauto].
  apply storage_lookup_put_other. tauto.
Qed.

Lemma storage_set_stored items :
  forall store key v,
    NoDup (map fst items) -> In (key, v) items ->
    storage_lookup key (storage_set items store) = Some v.
Proof.
  induction items as [|[k x] items IH]; intros store key v Hnd Hin; [contradiction|].
  simpl in Hnd. inversion Hnd as [|? ? Hout Hnd']; subst.
  unfold storage_set. simpl fold_left.
  fold (storage_set items (storage_put k x store)).
  destruct Hin as [[= -> ->]|Hin].
  - rewrite storage_set_untouched; [|exact Hout].
    apply storage_lookup_put_same.
  - now apply IH.
Qed.

Lemma in_storage_get keys store key v :
  In (key, v) (storage_get keys store)
  <-> In key keys /\ storage_lookup key store = Some v.
Proof.
  unfold storage_get. rewrite in_flat_map. split.
  - intros (k & Hk & Hin).
    destruct (storage_lookup k store) as [x|] eqn:E; [|contradiction].
    destruct Hin as [[= -> ->]|[]]. auto.
  - intros [Hk E]. exists key. split; [exact Hk|]. rewrite E. now left.
Qed.

(** X12.  After the first installation, a getSettings message is answered
    with the two defaults, 50 reviews and the local server, whatever the
    store held before; an onInstalled event with another reason leaves the
    store as it was. *)
Theorem X12_install_sets_the_defaults (st : Background) (health : HealthOutcome)
    (any : list (jsstring * StoredValue)) :
  snd (fst (onMessage {| action := js "getSettings"; settings := any |} health
                      (onInstalled (js "install") st)))
  = Settings [(js "defaultReviewCount", StoredNumber 50);
              (js "serverUrl", StoredString (js "http://localhost:5000"))]
  /\ (forall reason,
        reason <> js "install" ->
        storage_local (onInstalled reason st) = storage_local st).
Proof.
  split.
  - unfold onMessage, onInstalled. cbn -[storage_set storage_lookup js].
    change (jsstring_eqb (js "install") (js "install")) with true.
    change (jsstring_eqb (js "getSettings") (js "checkServer")) with false.
    change (jsstring_eqb (js "getSettings") (js "getSettings")) with true.
    cbn -[storage_set storage_lookup js].
    rewrite (storage_set_stored _ (storage_local st) (js "defaultReviewCount")
               (StoredNumber 50)).
    + rewrite (storage_set_stored _ (storage_local st) (js "serverUrl")
                 (StoredString (js "http://localhost:5000"))).
      * reflexivity.
      * repeat constructor; simpl; intuition discriminate.
      * right. now left.
    + repeat constructor; simpl; intuition discriminate.
    + now left.
  - intros reason Hr. unfold onInstalled.
    rewrite (jsstring_eqb_neq _ _ Hr). reflexivity.
Qed.

Lemma X12_update_witness :
  storage_local
    (onInstalled (js "update")
       {| storage_local := [(js "serverUrl", StoredString (js "http://localhost:8080"))];
          badgeText := fun _ => [];
          badgeBackgroundColor := fun _ => None;
          background_console := [] |})
  = [(js "serverUrl", StoredString (js "http://localhost:8080"))].
Proof.
  refine (proj2 (X12_install_sets_the_defaults
                   {| storage_local :=
                        [(js "serverUrl", StoredString (js "http://localhost:8080"))];
                      badgeText := fun _ => [];
                      badgeBackgroundColor := fun _ => None;
                      background_console := [] |}
                   (HealthFailed []) []) (js "update") _).
  discriminate.
Defined.

(** X13.  What saveSettings stores, getSettings gives back: after a
    saveSettings message whose object has distinct keys, the answer to
    getSettings holds, for each of the two keys "defaultReviewCount" and
    "serverUrl", the saved value when the object had that key and the
    value stored before when it had not; it holds no other key, so any
    other setting that was saved is not reported. *)
Theorem X13_saved_settings_come_back (st : Background)
    (items any : list (jsstring * StoredValue)) (health health' : HealthOutcome) :
  NoDup (map fst items) ->
  let saved := fst (fst (onMessage {| action := js "saveSettings"; settings := items |}
                                   health st)) in
  exists answered,
    snd (fst (onMessage {| action := js "getSettings"; settings := any |} health' saved))
    = Settings answered
    /\ (forall key v,
          In (key, v) answered -> key = js "defaultReviewCount" \/ key = js "serverUrl")
    /\ (forall key v,
          key = js "defaultReviewCount" \/ key = js "serverUrl" ->
          In (key, v) items -> In (key, v) answered)
    /\ (forall key v,
          key = js "defaultReviewCount" \/ key = js "serverUrl" ->
          ~ In key (map fst items) ->
          (In (key, v) answered <-> storage_lookup key (storage_local st) = Some v)).
Proof.
  intros Hnd saved.
  exists (storage_get [js "defaultReviewCount"; js "serverUrl"]
                      (storage_set items (storage_local st))).
  split; [reflexivity|].
  split; [|split].
  - intros key v Hin. apply in_storage_get in Hin. destruct Hin as [Hk _].
    simpl in Hk. intuition.
  - intros key v Hk Hin. apply in_storage_get. split.
    + simpl. intuition.
    + now apply storage_set_stored.
  - intros key v Hk Hout. rewrite in_storage_get.
    rewrite (storage_set_untouched items (storage_local st) key Hout).
    split; [tauto|]. intro E. split; [simpl; intuition|exact E].
Qed.

Lemma X13_round_trip_witness :
  exists answered,
    snd (fst (onMessage {| action := js "getSettings"; settings := [] |}
                (HealthFailed [])
                (fst (fst (onMessage
                             {| action := js "saveSettings";
                                settings := [(js "defaultReviewCount", StoredNumber 20);
                                             (js "theme", StoredString (js "dark"))] |}
                             (HealthFailed [])
                             (onInstalled (js "install")
                                {| storage_local := [];
                                   badgeText := fun _ => [];
                                   badgeBackgroundColor := fun _ => None;
                                   background_console := [] |}))))))
    = Settings answered
    /\ In (js "defaultReviewCount", StoredNumber 20) answered.
Proof.
  destruct (X13_saved_settings_come_back
              (onInstalled (js "install")
                 {| storage_local := [];
                    badgeText := fun _ => [];
                    badgeBackgroundColor := fun _ => None;
                    background_console := [] |})
              [(js "defaultReviewCount", StoredNumber 20);
               (js "theme", StoredString (js "dark"))]
              [] (HealthFailed []) (HealthFailed []))
    as (answered & E & _ & Hsaved & _).
  - repeat constructor; simpl; intuition discriminate.
  - exists answered. split; [exact E|].
    apply Hsaved; [now left|now left].
Defined.

(** X14.  When a tab has finished loading and has an address, its badge
    shows the pin exactly when isGoogleMapsPage of popup.js accepts the
    address, and is cleared otherwise; the badge colour is set with the
    pin and left alone when the badge is cleared.  The badges of the other
    tabs and the stored settings are never touched, and an update that is
    not "complete" or has no address changes nothing. *)
Theorem X14_badge_follows_isGoogleMapsPage (tabId : nat) (status url : option jsstring)
    (st : Background) :
  let st' := tabs_onUpdated tabId status url st in
  (forall tab, tab <> tabId ->
               badgeText st' tab = badgeText st tab
               /\ badgeBackgroundColor st' tab = badgeBackgroundColor st tab)
  /\ storage_local st' = storage_local st
  /\ (forall u,
        status = Some (js "complete") -> url = Some u -> u <> [] ->
        (badgeText st' tabId = pin <-> isGoogleMapsPage u = true)
        /\ (badgeText st' tabId = [] <-> isGoogleMapsPage u = false)
        /\ badgeBackgroundColor st' tabId
           = if isGoogleMapsPage u then Some (js "#4CAF50")
             else badgeBackgroundColor st tabId)
  /\ (status <> Some (js "complete") \/ url = None \/ url = Some [] -> st' = st).
Proof.
  intro st'. subst st'. unfold tabs_onUpdated, isGoogleMapsPage.
  split; [|split; [|split]].
  - intros tab Hne. apply Nat.eqb_neq in Hne.
    destruct status as [s|], url as [u|]; try (split; reflexivity).
    destruct (jsstring_eqb s (js "complete") && truthy u); [|split; reflexivity].
    destruct (includes u (js "google.com/maps") || includes u (js "maps.google.com"));
      simpl; rewrite Hne; split; reflexivity.
  - destruct status as [s|], url as [u|]; try reflexivity.
    destruct (jsstring_eqb s (js "complete") && truthy u); [|reflexivity].
    destruct (includes u (js "google.com/maps") || includes u (js "maps.google.com"));
      reflexivity.
  - intros u -> -> Hu.
    change (jsstring_eqb (js "complete") (js "complete")) with true.
    destruct u as [|c u]; [congruence|]. simpl truthy. simpl andb. cbv iota.
    destruct (includes (c :: u) (js "google.com/maps")
              || includes (c :: u) (js "maps.google.com"));
      simpl; rewrite Nat.eqb_refl; repeat split; try reflexivity;
      try discriminate; intro; discriminate.
  - intros [Hs|[-> | ->]].
    + destruct status as [s|], url as [u|]; try reflexivity.
      destruct (jsstring_eqb s (js "complete")) eqn:E; [|reflexivity].
      apply jsstring_eqb_true_iff in E. subst s. congruence.
    + destruct status; reflexivity.
    + destruct status as [s|]; [|reflexivity].
      now rewrite andb_false_r.
Qed.

Lemma X14_badge_witness :
  badgeText
    (tabs_onUpdated 7 (Some (js "complete"))
       (Some (js "https://www.google.com/maps/place/Roma"))
       {| storage_local := [];
          badgeText := fun _ => [];
          badgeBackgroundColor := fun _ => None;
          background_console := [] |}) 7
  = pin.
Proof.
  refine (proj2 (proj1 (proj1 (proj2 (proj2
           (X14_badge_follows_isGoogleMapsPage 7 (Some (js "complete"))
              (Some (js "https://www.google.com/maps/place/Roma"))
              {| storage_local := [];
                 badgeText := fun _ => [];
                 badgeBackgroundColor := fun _ => None;
                 background_console := [] |})))
           (js "https://www.google.com/maps/place/Roma") eq_refl eq_refl _)) _).
  - discriminate.
  - vm_compute. reflexivity.
Defined.
